(** * pixelqart: a shallow embedding of [pixelqart.py]

    The program searches for a QR code that contains a given pixel art: it
    splits the design into a desired and a necessary overlay, asks the QArt
    service for candidate renders, pastes the necessary overlay on each
    candidate, validates it with a barcode decoder, scores it against JPEG
    recompression and saves it.

    Layout of this file:
    - exceptions and the [result] monad;
    - the parts of PIL the program uses ([Image.new], pixel access,
      [Image.paste]), as a raster of rows of RGBA tuples;
    - the Python string helpers the program uses ([split], [startswith],
      [os.path.basename], [os.path.splitext], [lower], [str] of an int);
    - [split_design], [eval_qrcode], the loop of [search_qrcode] as a
      step function over its phases, [main] and the command-line entry;
    - the properties. *)

From Stdlib Require Import ZArith Ascii.
From stdpp Require Import list strings pretty gmap.

Local Open Scope Z_scope.
Local Open Scope nat_scope.

(** ** Exceptions *)

(** The exception classes the program can raise.  [assert] raises
    [AssertionError]; unpacking too few values raises [ValueError]; an index
    out of range raises [IndexError] and a missing key [KeyError];
    [requests.get] raises
    [ConnectionError] on a transport failure; [base64.b64decode] and
    [Image.open] raise their own errors on bytes they cannot read. *)
Inductive exn : Type :=
| AssertionError
| ValueError
| IndexError
| KeyError
| ConnectionError
| UnidentifiedImageError.

Definition exn_name (e : exn) : string :=
  match e with
  | AssertionError => "AssertionError"
  | ValueError => "ValueError"
  | IndexError => "IndexError"
  | KeyError => "KeyError"
  | ConnectionError => "ConnectionError"
  | UnidentifiedImageError => "UnidentifiedImageError"
  end.

#[global] Instance exn_eq_dec : EqDecision exn.
Proof. solve_decision. Defined.

(** A computation that returns a value or raises. *)
Inductive result (A : Type) : Type :=
| Ok (a : A)
| Raise (e : exn).
Arguments Ok {A} a.
Arguments Raise {A} e.

#[global] Instance result_ret : MRet result := @Ok.
#[global] Instance result_bind : MBind result := λ A B f m,
  match m with
  | Ok a => f a
  | Raise e => Raise e
  end.

(** A [for] loop over [xs] whose body may raise: the first exception leaves
    the loop. *)
Fixpoint for_each {S A : Type} (body : S → A → result S) (xs : list A) (s : S)
  : result S :=
  match xs with
  | [] => Ok s
  | x :: xs' => s' ← body s x; for_each body xs' s'
  end.

(** ** PIL rasters *)

Module PIL.

(** An RGBA pixel as Python shows it: a 4-tuple of ints. *)
Definition pixel : Type := Z * Z * Z * Z.

Definition alpha (p : pixel) : Z := p.2.

(** A raster: its mode, its size, and its rows ([data !! y !! x] is the pixel
    at column [x] of row [y]). *)
Record Image : Type := mkImage {
  mode : string;
  width : nat;
  height : nat;
  data : list (list pixel)
}.

Definition size (im : Image) : nat * nat := (width im, height im).

#[global] Instance Image_eq_dec : EqDecision Image.
Proof. solve_decision. Defined.

(** Every raster PIL builds has [height] rows of [width] pixels. *)
Definition shape_ok (im : Image) : Prop :=
  length (data im) = height im ∧ Forall (λ row, length row = width im) (data im).

(** 8-bit channels. *)
Definition byte_px (p : pixel) : Prop :=
  let '(r, g, b, a) := p in
  (0 ≤ r < 256 ∧ 0 ≤ g < 256 ∧ 0 ≤ b < 256 ∧ 0 ≤ a < 256)%Z.

#[global] Instance byte_px_dec p : Decision (byte_px p).
Proof. destruct p as [[[r g] b] a]. simpl. apply _. Defined.

Definition byte_valued (im : Image) : Prop :=
  Forall (Forall byte_px) (data im).

(** A pixel that is fully transparent or fully opaque. *)
Definition binary_alpha (p : pixel) : Prop := alpha p = 0%Z ∨ alpha p = 255%Z.

(** [Image.new(mode, size, color)]. *)
Definition new (mode : string) (size : nat * nat) (color : pixel) : Image :=
  mkImage mode size.1 size.2 (replicate size.2 (replicate size.1 color)).

(** The pixel stored at [(x, y)], if any. *)
Definition px (im : Image) (x y : nat) : option pixel :=
  row ← data im !! y; row !! x.

(** [pixels[x, y]] on the object [im.load()] returns: [IndexError] out of
    range. *)
Definition getpixel (im : Image) (x y : nat) : result pixel :=
  match px im x y with
  | Some p => Ok p
  | None => Raise IndexError
  end.

(** [pixels[x, y] = v]: [IndexError] out of range. *)
Definition putpixel (im : Image) (x y : nat) (v : pixel) : result Image :=
  if decide (x < width im ∧ y < height im) then
    Ok (mkImage (mode im) (width im) (height im)
          (alter (λ row, <[x := v]> row) y (data im)))
  else Raise IndexError.

(** Pillow's [DIV255] and [BLEND] on 8-bit values: the mix of the destination
    [d] and the source [s] under mask value [m]. *)
Definition DIV255 (a : Z) : Z :=
  let tmp := (a + 128)%Z in
  Z.shiftr (Z.shiftr tmp 8 + tmp) 8.

Definition BLEND (m d s : Z) : Z := DIV255 (d * (255 - m) + s * m)%Z.

Definition blend_px (m : Z) (d s : pixel) : pixel :=
  let '(dr, dg, db, da) := d in
  let '(sr, sg, sb, sa) := s in
  (BLEND m dr sr, BLEND m dg sg, BLEND m db sb, BLEND m da sa).

(** [dst.paste(src, box, mask)] with a 2-tuple [box]: the region is the
    source's size with its upper left corner at [box]; what falls outside
    the destination is clipped.  Without a mask the source pixel is copied;
    with an RGBA mask its alpha band weighs source against destination. *)
Definition pasted (src : Image) (box : nat * nat) (mask : option Image)
  (x y : nat) (d : pixel) : pixel :=
  if decide (box.1 ≤ x < box.1 + width src ∧ box.2 ≤ y < box.2 + height src)
  then
    match px src (x - box.1) (y - box.2) with
    | Some s =>
        match mask with
        | None => s
        | Some mk =>
            match px mk (x - box.1) (y - box.2) with
            | Some mp => blend_px (alpha mp) d s
            | None => d
            end
        end
    | None => d
    end
  else d.

Definition paste (dst src : Image) (box : nat * nat) (mask : option Image)
  : Image :=
  mkImage (mode dst) (width dst) (height dst)
    (imap (λ y row, imap (λ x d, pasted src box mask x y d) row) (data dst)).

End PIL.
Import PIL.

(** ** The design splitter *)

Definition QRCODE_SIZE : nat * nat := (41, 41).
Definition QART_MARGIN : nat := 4.

Definition NECESSARY_BLACK : pixel := (0, 0, 255, 255)%Z.
Definition NECESSARY_WHITE : pixel := (255, 255, 0, 255)%Z.

(** [itertools.product(xs, ys)]: the first component varies slowest. *)
Definition product {A B : Type} (xs : list A) (ys : list B) : list (A * B) :=
  x ← xs; y ← ys; [(x, y)].

(** The body of the loop of [split_design] at [(x, y)], on the pair of
    rasters it writes. *)
Definition split_design_body (pixels : Image) (st : Image * Image)
  (xy : nat * nat) : result (Image * Image) :=
  let '(desired_pixels, necessary_pixels) := st in
  let '(x, y) := xy in
  p ← getpixel pixels x y;
  if decide (p = NECESSARY_BLACK) then
    d ← putpixel desired_pixels x y (0, 0, 0, 255)%Z;
    n ← putpixel necessary_pixels x y (0, 0, 0, 255)%Z;
    Ok (d, n)
  else if decide (p = NECESSARY_WHITE) then
    d ← putpixel desired_pixels x y (255, 255, 255, 255)%Z;
    n ← putpixel necessary_pixels x y (255, 255, 255, 255)%Z;
    Ok (d, n)
  else
    d ← putpixel desired_pixels x y p;
    Ok (d, necessary_pixels).

Definition split_design (design : Image) : result (Image * Image) :=
  if decide (mode design = "RGBA") then
    if decide (size design = QRCODE_SIZE) then
      let desired := new "RGBA" QRCODE_SIZE (0, 0, 0, 0)%Z in
      let necessary := new "RGBA" QRCODE_SIZE (0, 0, 0, 0)%Z in
      for_each (split_design_body design)
        (product (seq 0 (width design)) (seq 0 (height design)))
        (desired, necessary)
    else Raise AssertionError
  else Raise AssertionError.

(** ** Python strings *)

Module Py.

(** [s[n:]] and [s[:n]] for [0 <= n]. *)
Fixpoint drop_chars (n : nat) (s : string) : string :=
  match n, s with
  | 0, _ => s
  | S n', String _ s' => drop_chars n' s'
  | S _, EmptyString => EmptyString
  end.

Fixpoint take_chars (n : nat) (s : string) : string :=
  match n, s with
  | 0, _ => EmptyString
  | S n', String c s' => String c (take_chars n' s')
  | S _, EmptyString => EmptyString
  end.

(** [s[i:i+1]]: the one-character slice at [i], empty out of range. *)
Definition slice1 (s : string) (i : nat) : string :=
  take_chars 1 (drop_chars i s).

(** [s.startswith(prefix)]. *)
Fixpoint startswith (s prefix : string) : bool :=
  match prefix, s with
  | EmptyString, _ => true
  | String c p', String d s' => bool_decide (c = d) && startswith s' p'
  | String _ _, EmptyString => false
  end.

(** [s.split(sep)] for a one-character separator: never empty. *)
Fixpoint split (sep : ascii) (s : string) : list string :=
  match s with
  | EmptyString => [EmptyString]
  | String c s' =>
      if decide (c = sep) then EmptyString :: split sep s'
      else match split sep s' with
           | h :: t => String c h :: t
           | [] => [String c EmptyString]
           end
  end.

(** The last index of [c] in [s], counted from [i] for the head of [s]. *)
Fixpoint rfind_from (c : ascii) (s : string) (i : nat) : option nat :=
  match s with
  | EmptyString => None
  | String a s' =>
      match rfind_from c s' (S i) with
      | Some j => Some j
      | None => if decide (a = c) then Some i else None
      end
  end.

(** [s.rfind(c)]: [-1] when [c] does not occur. *)
Definition rfind (c : ascii) (s : string) : Z :=
  match rfind_from c s 0 with
  | Some j => Z.of_nat j
  | None => (-1)%Z
  end.

(** [s.lower()] on ASCII text. *)
Definition lower_char (c : ascii) : ascii :=
  let n := nat_of_ascii c in
  if decide (65 ≤ n ≤ 90) then ascii_of_nat (n + 32) else c.

Fixpoint lower (s : string) : string :=
  match s with
  | EmptyString => EmptyString
  | String c s' => String (lower_char c) (lower s')
  end.

(** [posixpath.basename(p)]: [i = p.rfind('/') + 1; return p[i:]]. *)
Definition basename (p : string) : string :=
  let i := (rfind "/" p + 1)%Z in
  drop_chars (Z.to_nat i) p.

(** The loop of [genericpath._splitext] that skips leading dots: it returns
    at the first index whose character is not a dot. *)
Fixpoint splitext_scan (p : string) (dotIndex : nat) (idxs : list nat)
  : option (string * string) :=
  match idxs with
  | [] => None
  | filenameIndex :: rest =>
      if decide (slice1 p filenameIndex ≠ ".") then
        Some (take_chars dotIndex p, drop_chars dotIndex p)
      else splitext_scan p dotIndex rest
  end.

(** [posixpath.splitext(p)] (separator [/], no alternative separator,
    extension separator [.]). *)
Definition splitext (p : string) : string * string :=
  let sepIndex := rfind "/" p in
  let dotIndex := rfind "." p in
  if decide (dotIndex > sepIndex)%Z then
    let filenameIndex := Z.to_nat (sepIndex + 1) in
    match splitext_scan p (Z.to_nat dotIndex)
            (seq filenameIndex (Z.to_nat dotIndex - filenameIndex)) with
    | Some r => r
    | None => (p, EmptyString)
    end
  else (p, EmptyString).

(** [str(n)] for an int [n >= 0]: its decimal digits. *)
Definition str (n : N) : string := pretty n.

End Py.

(** ** External capabilities *)

(** One code pyzbar reports: its symbology and its payload. *)
Record Decoded : Type := mkDecoded {
  type : string;
  payload : string
}.

(** What the program calls and does not implement: PIL's resampling, mode
    conversion and codecs, pyzbar's decoder, urllib's quoting. *)
Class External : Type := {
  (** [im.resize(size)] *)
  resize : Image → nat * nat → Image;
  (** [im.convert(mode)] *)
  convert : Image → string → Image;
  (** [im.save(buf, format='jpeg', quality=q)]: the bytes written *)
  jpeg_save : Image → nat → string;
  (** [Image.open(buf)] on those bytes *)
  image_open : string → Image;
  (** [Image.open(io.BytesIO(base64.b64decode(data)))] *)
  png_open : string → result Image;
  (** [pyzbar.decode(im)] *)
  decode_barcode : Image → list Decoded;
  (** [urllib.parse.quote(s, safe='')] *)
  quote : string → string
}.

(** The size contract of [Image.resize]. *)
Definition resize_contract `{External} : Prop :=
  ∀ im size, PIL.size (resize im size) = size.

(** ** The robustness scorer *)

(** The test of line 158, [len(info) == 1 and info[0].type == 'QRCODE']:
    [and] evaluates [info[0]] only when the length is 1. *)
Definition eval_ok (info : list Decoded) : result bool :=
  if decide (length info = 1) then
    match info !! 0 with
    | Some d => Ok (bool_decide (type d = "QRCODE"))
    | None => Raise IndexError
    end
  else Ok false.

(** The body of the loop of [eval_qrcode] at one quality level.  The state
    is [success] and, as instrumentation the code does not have, the rasters
    handed to [decode_barcode] so far, in call order. *)
Definition eval_qrcode_body `{External} (qrcode : Image)
  (st : nat * list Image) (quality : nat) : result (nat * list Image) :=
  let '(success, calls) := st in
  let img := convert qrcode "RGB" in
  let buf := jpeg_save img quality in
  let img := image_open buf in
  let info := decode_barcode img in
  ok ← eval_ok info;
  if ok : bool then Ok (success + 1, calls ++ [img])
  else Ok (success, calls ++ [img]).

(** The padding of [eval_qrcode]: the candidate scaled 10 times, pasted with
    itself as mask in a transparent canvas of 20 times the candidate. *)
Definition expand `{External} (qrcode : Image) : Image :=
  let '(w, h) := size qrcode in
  let resized := resize qrcode (w * 10, h * 10) in
  let expanded := new "RGBA" (w * 20, h * 20) (0, 0, 0, 0)%Z in
  paste expanded resized (w * 5, h * 5) (Some resized).

Definition eval_qrcode `{External} (qrcode : Image)
  : result (nat * list Image) :=
  if decide (width qrcode = QRCODE_SIZE.1 + QART_MARGIN * 2) then
    if decide (height qrcode = QRCODE_SIZE.2 + QART_MARGIN * 2) then
      let qrcode := expand qrcode in
      for_each (eval_qrcode_body qrcode) (seq 1 95) (1, [])
    else Raise AssertionError
  else Raise AssertionError.

(** ** The search loop *)

(** One draw of [mask], [orient] and [seed]. *)
Record SearchParameters : Type := mkParams {
  mask : N;
  orient : N;
  seed : N
}.

#[global] Instance SearchParameters_eq_dec : EqDecision SearchParameters.
Proof. solve_decision. Defined.

(** What [random.randrange(8)], [random.randrange(4)] and
    [random.getrandbits(32)] can return. *)
Definition in_range (p : SearchParameters) : Prop :=
  (mask p < 8 ∧ orient p < 4 ∧ seed p < 2 ^ 32)%N.

(** What [requests.get(url)] does: it raises on a transport failure, and
    returns the response otherwise, whatever its status. *)
Inductive http_result : Type :=
| TransportFailure
| Response (status_code : nat) (content : string).

(** The arguments of [search_qrcode] other than the shared event. *)
Record job : Type := mkJob {
  name : string;
  href : string;
  uploaded_image_id : string;
  necessary : Image;
  stop_if_found : bool
}.

(** What the workers share: the stop event, the files of the working
    directory and, as instrumentation, the rasters handed to
    [decode_barcode]. *)
Record world : Type := mkWorld {
  stop_event : bool;
  storage : gmap string Image;
  decoder_calls : list Image
}.

Definition draw_url `{External} (j : job) (p : SearchParameters) : string :=
  "https://research.swtch.com/qr/draw?x=0&y=0&c=0&"
  +:+ "i=" +:+ uploaded_image_id j +:+ "&"
  +:+ "v=6&" +:+ "r=1&" +:+ "d=0&" +:+ "t=0&" +:+ "z=0&"
  +:+ "u=" +:+ quote (href j) +:+ "&"
  +:+ "m=" +:+ Py.str (mask p) +:+ "&"
  +:+ "o=" +:+ Py.str (orient p) +:+ "&"
  +:+ "s=" +:+ Py.str (seed p).

(** The double quote character. *)
Definition DQUOTE : ascii := ascii_of_nat 34.

(** The canonical candidate size: 49 by 49. *)
Definition candidate_size : nat * nat :=
  (QRCODE_SIZE.1 + QART_MARGIN * 2, QRCODE_SIZE.2 + QART_MARGIN * 2).

(** Lines 93 to 107: the request, the payload between the first two double
    quotes, its marker, the PNG it holds, its size, and the resize. *)
Definition render `{External} (r : http_result) : result Image :=
  match r with
  | TransportFailure => Raise ConnectionError
  | Response _ content =>
      match Py.split DQUOTE content with
      | _ :: data :: _ =>
          if Py.startswith data "data:image/png;base64," then
            let data :=
              Py.drop_chars (String.length "data:image/png;base64,") data in
            qrcode ← png_open data;
            let size := candidate_size in
            if decide (width qrcode = 4 * size.1) then
              if decide (height qrcode = 4 * size.2) then
                Ok (resize qrcode size)
              else Raise AssertionError
            else Raise AssertionError
          else Raise AssertionError
      | _ => Raise ValueError
      end
  end.

(** [Image.paste] converts a source of another mode to the destination's
    mode before it copies. *)
Definition paste_source `{External} (dst src : Image) : Image :=
  if decide (mode src = mode dst) then src else convert src (mode dst).

(** Lines 110 to 112. *)
Definition composite `{External} (qrcode necessary : Image) : Image :=
  let canvas := new "RGBA" candidate_size (0, 0, 0, 0)%Z in
  let canvas := paste canvas (paste_source canvas qrcode) (0, 0) None in
  paste canvas necessary (QART_MARGIN, QART_MARGIN) (Some necessary).

(** The test of line 115. *)
Definition search_ok (info : list Decoded) : result bool :=
  if decide (length info = 1) then
    match info !! 0 with
    | Some d => Ok (bool_decide (type d = "QRCODE"))
    | None => Raise IndexError
    end
  else Ok false.

(** Line 127. *)
Definition filename (name : string) (score : nat) (p : SearchParameters)
  : string :=
  name +:+ "-" +:+ Py.str (N.of_nat score)
  +:+ "-m" +:+ Py.str (mask p)
  +:+ "o" +:+ Py.str (orient p)
  +:+ "s" +:+ Py.str (seed p) +:+ ".png".

(** Where a worker stands in [search_qrcode]. *)
Inductive phase : Type :=
| Sampling                                     (* line 72: the loop test *)
| Rendering (p : SearchParameters) (url : string)            (* line 93 *)
| Compositing (p : SearchParameters) (qrcode : Image)       (* line 110 *)
| Validating (p : SearchParameters) (canvas : Image)        (* line 114 *)
| Scoring (p : SearchParameters) (canvas : Image)           (* line 123 *)
| Persisting (p : SearchParameters) (canvas : Image) (score : nat)
                                                            (* line 127 *)
| Stopping                                                  (* line 131 *)
| Exited                                     (* the function returned *)
| Raised (e : exn).               (* an exception left the function *)

(** What a step consumes from outside: the next random draw and the reply
    to the next request. *)
Record input : Type := mkInput {
  drawn : SearchParameters;
  reply : http_result
}.

Definition log_calls (calls : list Image) (w : world) : world :=
  mkWorld (stop_event w) (storage w) (decoder_calls w ++ calls).

(** One phase of one worker. *)
Definition worker_step `{External} (j : job) (i : input) (ph : phase)
  (w : world) : phase * world :=
  match ph with
  | Sampling =>
      if stop_event w then (Exited, w)
      else (Rendering (drawn i) (draw_url j (drawn i)), w)
  | Rendering p url =>
      match render (reply i) with
      | Ok qrcode => (Compositing p qrcode, w)
      | Raise e => (Raised e, w)
      end
  | Compositing p qrcode =>
      (Validating p (composite qrcode (necessary j)), w)
  | Validating p canvas =>
      let upscaled := resize canvas (width canvas * 2, height canvas * 2) in
      let info := decode_barcode upscaled in
      match search_ok info with
      | Ok ok =>
          if negb ok then (Sampling, log_calls [upscaled] w)
          else (Scoring p canvas, log_calls [upscaled] w)
      | Raise e => (Raised e, log_calls [upscaled] w)
      end
  | Scoring p canvas =>
      match eval_qrcode canvas with
      | Ok (score, calls) => (Persisting p canvas score, log_calls calls w)
      | Raise e => (Raised e, w)
      end
  | Persisting p canvas score =>
      (Stopping,
       mkWorld (stop_event w)
         (<[filename (name j) score p := canvas]> (storage w))
         (decoder_calls w))
  | Stopping =>
      if stop_if_found j then
        (Exited, mkWorld true (storage w) (decoder_calls w))
      else (Sampling, w)
  | Exited => (Exited, w)
  | Raised e => (Raised e, w)
  end.

(** ** The session *)

(** The workers of one [main], by index, and what they share. *)
Record session : Type := mkSession {
  workers : list phase;
  shared : world
}.

(** What can happen next: worker [k] runs one phase, or the event is set
    from outside the workers ([main] after [KeyboardInterrupt]). *)
Inductive event : Type :=
| Step (k : nat) (i : input)
| SetStop.

Definition session_step `{External} (j : job) (s : session) (e : event)
  : session :=
  match e with
  | SetStop =>
      mkSession (workers s)
        (mkWorld true (storage (shared s)) (decoder_calls (shared s)))
  | Step k i =>
      match workers s !! k with
      | Some ph =>
          let '(ph', w') := worker_step j i ph (shared s) in
          mkSession (<[k := ph']> (workers s)) w'
      | None => s
      end
  end.

Definition run `{External} (j : job) (es : list event) (s : session)
  : session :=
  foldl (session_step j) s es.

(** The reply to the upload: the status, and the first value of the query
    parameter [i] of the [Location] header, if there is one. *)
Record post_reply : Type := mkPostReply {
  post_status : nat;
  location_i : option string
}.

Definition upload_image (r : post_reply) : result string :=
  if decide (post_status r = 302) then
    match location_i r with
    | Some i => Ok i
    | None => Raise KeyError
    end
  else Raise AssertionError.

(** [main] up to the point where every worker is submitted: the job the
    workers get and the session they start in ([cwd] is the working
    directory as it stands). *)
Definition main (name : string) (design : Image) (href : string)
  (concurrency : nat) (stop_if_found : bool) (r : post_reply)
  (cwd : gmap string Image) : result (job * session) :=
  '(desired, necessary) ← split_design design;
  uploaded_image_id ← upload_image r;
  Ok (mkJob name href uploaded_image_id necessary stop_if_found,
      mkSession (replicate concurrency Sampling) (mkWorld false cwd [])).

(** The [__main__] block: [path] is [args.design.name]. *)
Definition entry (path : string) (design : Image) (href : string)
  (concurrency : nat) (stop_if_found : bool) (r : post_reply)
  (cwd : gmap string Image) : result (job * session) :=
  let '(name, png) := Py.splitext (Py.basename path) in
  if decide (Py.lower png = ".png") then
    main name design href concurrency stop_if_found r cwd
  else Raise AssertionError.

(** ** What the splitter is meant to write *)

(** The pixel of the desired overlay for the design pixel [p]. *)
Definition desired_px (p : pixel) : pixel :=
  if decide (p = NECESSARY_BLACK) then (0, 0, 0, 255)%Z
  else if decide (p = NECESSARY_WHITE) then (255, 255, 255, 255)%Z
  else p.

(** The pixel of the necessary overlay for the design pixel [p]. *)
Definition necessary_px (p : pixel) : pixel :=
  if decide (p = NECESSARY_BLACK) then (0, 0, 0, 255)%Z
  else if decide (p = NECESSARY_WHITE) then (255, 255, 255, 255)%Z
  else (0, 0, 0, 0)%Z.

(** ** The acceptance rule and the scorer's trials, as the specification
    words them *)

(** Exactly one detected code, and its symbology is QR. *)
Definition exactly_one_qr (info : list Decoded) : bool :=
  match info with
  | [d] => bool_decide (type d = "QRCODE")
  | _ => false
  end.

(** The raster the scorer hands to the decoder at quality [q]: the padded
    candidate flattened to RGB, encoded as JPEG at [q], and read back. *)
Definition trial `{External} (padded : Image) (q : nat) : Image :=
  image_open (jpeg_save (convert padded "RGB") q).

(** Quality [q] passes. *)
Definition passes `{External} (padded : Image) (q : nat) : bool :=
  exactly_one_qr (decode_barcode (trial padded q)).

(** The capabilities [E] with the decoder replaced by [dec]. *)
Definition with_decoder (E : External) (dec : Image → list Decoded)
  : External := {|
  resize := @resize E;
  convert := @convert E;
  jpeg_save := @jpeg_save E;
  image_open := @image_open E;
  png_open := @png_open E;
  decode_barcode := dec;
  quote := @quote E
|}.

(** ** Renderer failures, as the specification lists them *)

(** The marker the payload must start with. *)
Definition MARKER : string := "data:image/png;base64,".

(** A transport failure; a body without a quoted payload; a payload without
    the marker; a payload that is no image; an image of the wrong size.
    Each with the exception it raises. *)
Inductive render_failure `{External} : http_result → exn → Prop :=
| rf_transport :
    render_failure TransportFailure ConnectionError
| rf_no_payload status content :
    length (Py.split DQUOTE content) < 2 →
    render_failure (Response status content) ValueError
| rf_no_marker status content x data rest :
    Py.split DQUOTE content = x :: data :: rest →
    Py.startswith data MARKER = false →
    render_failure (Response status content) AssertionError
| rf_unreadable status content x data rest e :
    Py.split DQUOTE content = x :: data :: rest →
    Py.startswith data MARKER = true →
    png_open (Py.drop_chars (String.length MARKER) data) = Raise e →
    render_failure (Response status content) e
| rf_wrong_size status content x data rest qrcode :
    Py.split DQUOTE content = x :: data :: rest →
    Py.startswith data MARKER = true →
    png_open (Py.drop_chars (String.length MARKER) data) = Ok qrcode →
    size qrcode ≠ (4 * 49, 4 * 49) →
    render_failure (Response status content) AssertionError.

(** ** Characters of file names *)

(** [list(s)]: the characters of [s]. *)
Fixpoint chars (s : string) : list ascii :=
  match s with
  | EmptyString => []
  | String c s' => c :: chars s'
  end.

Definition is_digit (c : ascii) : Prop := c ∈ chars "0123456789".

(** The extensions that equal [.png] when case is ignored. *)
Definition png_spellings : list string :=
  [".png"; ".pnG"; ".pNg"; ".pNG"; ".Png"; ".PnG"; ".PNg"; ".PNG"].

(** ** Interleavings *)

(** The event is not a step of worker [k]: it is a step of another worker,
    or the stop event being set. *)
Definition not_step_of (k : nat) (e : event) : Prop :=
  match e with
  | Step k' _ => k' ≠ k
  | SetStop => True
  end.

#[global] Instance not_step_of_dec k e : Decision (not_step_of k e).
Proof. destruct e; simpl; apply _. Defined.

(** ** Concrete inputs *)

Module Fixture.

(** A 41 by 41 RGBA design: white, with a necessary-black pixel at (10, 10),
    a necessary-white pixel at (11, 10) and a half-transparent red pixel at
    (12, 10). *)
Definition design : Image :=
  mkImage "RGBA" 41 41
    (alter (λ row, <[10 := NECESSARY_BLACK]>
                     (<[11 := NECESSARY_WHITE]>
                        (<[12 := (255, 0, 0, 128)%Z]> row))) 10
       (replicate 41 (replicate 41 (255, 255, 255, 255)%Z))).

(** The same raster in mode RGB. *)
Definition rgb_design : Image :=
  mkImage "RGB" 41 41 (data design).

(** A 40 by 41 RGBA raster. *)
Definition narrow_design : Image :=
  new "RGBA" (40, 41) (255, 255, 255, 255)%Z.

(** A 49 by 49 opaque black RGBA raster. *)
Definition qrcode : Image := new "RGBA" (49, 49) (0, 0, 0, 255)%Z.

(** Nearest-neighbour resampling. *)
Definition nearest (im : Image) (size : nat * nat) : Image :=
  mkImage (mode im) size.1 size.2
    (map (λ y,
       map (λ x, default (0, 0, 0, 0)%Z
                   (px im (x * width im / size.1) (y * height im / size.2)))
         (seq 0 size.1))
       (seq 0 size.2)).

(** Stand-ins for the external capabilities.  The JPEG bytes are the
    decimal digits of the quality, and the raster read back is as wide as
    they are long; the decoder finds one QR code in a raster at least two
    pixels wide and nothing in a narrower one, so that qualities 1 to 9 fail
    and 10 to 95 pass.  The only PNG payload is [QR], a 196 by 196 raster. *)
#[local] Instance stub : External := {|
  resize := nearest;
  convert im m := mkImage m (width im) (height im) (data im);
  jpeg_save im q := Py.str (N.of_nat q);
  image_open buf := new "RGB" (String.length buf, 1) (0, 0, 0, 255)%Z;
  png_open s :=
    if decide (s = "QR") then Ok (new "RGBA" (196, 196) (0, 0, 0, 255)%Z)
    else Raise UnidentifiedImageError;
  decode_barcode im :=
    if decide (width im < 2) then [] else [mkDecoded "QRCODE" "pixelqart"];
  quote s := s
|}.

(** The necessary overlay of [design]. *)
Definition necessary : Image :=
  match split_design design with
  | Ok (_, n) => n
  | Raise _ => new "RGBA" QRCODE_SIZE (0, 0, 0, 0)%Z
  end.

Definition params : SearchParameters := mkParams 5 2 123456789.
Definition other_params : SearchParameters := mkParams 5 2 123456780.

Definition job : job :=
  mkJob "art" "https://example.com/" "abc123" necessary true.

Definition world0 : world := mkWorld false ∅ [].

(** Replies of the renderer: an error page without any double quote, and a
    page whose first quoted text is not an image payload. *)
Definition error_reply : http_result := Response 500 "Internal Server Error".
Definition unmarked_reply : http_result :=
  Response 200 ("<a href=" +:+ String DQUOTE "/qr" +:+ String DQUOTE ">").

(** Two workers, the first about to read the reply to its request. *)
Definition rendering_session : session :=
  mkSession [Rendering params "https://research.swtch.com/qr/draw"; Sampling]
    world0.

(** Two workers, the first about to score [qrcode]. *)
Definition scoring_session : session :=
  mkSession [Scoring params qrcode; Sampling] world0.

End Fixture.

(** ** Measures and histories of a session *)

(** How many of its own steps a worker can still take once the stop event
    is set. *)
Definition steps_left (ph : phase) : nat :=
  match ph with
  | Rendering _ _ => 7
  | Compositing _ _ => 6
  | Validating _ _ => 5
  | Scoring _ _ => 4
  | Persisting _ _ _ => 3
  | Stopping => 2
  | Sampling => 1
  | Exited => 0
  | Raised _ => 0
  end.

(** The number of steps of worker [k] among the events. *)
Definition own_steps (k : nat) (es : list event) : nat :=
  length (filter (λ e, ¬ not_step_of k e) es).

(** The event is not the stop event being set from outside. *)
Definition not_set_stop (e : event) : Prop :=
  match e with
  | Step _ _ => True
  | SetStop => False
  end.

#[global] Instance not_set_stop_dec e : Decision (not_set_stop e).
Proof. destruct e; simpl; apply _. Defined.

(** A worker stands at [Stopping]. *)
Definition at_stopping (s : session) : Prop := Stopping ∈ workers s.

(** A step of some worker from [Persisting] is among the events [es] run
    from [s], and wrote its file. *)
Definition saved_during `{External} (j : job) (es : list event)
  (s : session) : Prop :=
  ∃ es1 k i es2 p canvas score,
    es = es1 ++ Step k i :: es2 ∧
    workers (run j es1 s) !! k = Some (Persisting p canvas score) ∧
    storage (shared (run j (es1 ++ [Step k i]) s))
      !! filename (name j) score p = Some canvas.

(** The phases whose step neither saves nor sets the stop event. *)
Definition quiet (ph : phase) : Prop :=
  match ph with
  | Stopping | Persisting _ _ _ => False
  | _ => True
  end.



(** ** More concrete inputs *)

Module Sample.

(** A 49 by 49 RGBA render, opaque white. *)
Definition render : Image := new "RGBA" (49, 49) (255, 255, 255, 255)%Z.

(** The text around the payload of a well-formed reply, and the payload. *)
Definition before : string := "<img src=".
Definition payload : string := "data:image/png;base64,QR".
Definition rest : string := ">".

Definition good_reply : http_result :=
  Response 200 (before +:+ String DQUOTE (payload +:+ String DQUOTE rest)).

Definition good : input := mkInput Fixture.params good_reply.

(** Two workers at the loop head, as [main] leaves them. *)
Definition started : session :=
  mkSession [Sampling; Sampling] Fixture.world0.

(** The same two workers with the stop event set, the first in the middle
    of an attempt. *)
Definition stopped : session :=
  mkSession [Rendering Fixture.params "https://research.swtch.com/qr/draw";
             Sampling]
    (mkWorld true ∅ []).

(** A job that does not stop on the first result. *)
Definition patient_job : job :=
  mkJob "art" "https://example.com/" "abc123" Fixture.necessary false.

(** The reply to a successful upload. *)
Definition uploaded : post_reply := mkPostReply 302 (Some "abc123").

End Sample.

(** ** Proof steps *)

(** Membership in a list of coordinates, one cons at a time. *)
Ltac coords :=
  match goal with
  | H : _ ∉ _ :: _ |- _ => apply not_elem_of_cons in H as [? ?]
  | H : _ ∈ _ :: _ |- _ => apply elem_of_cons in H as [?|?]
  end.

(** A closed decidable goal, by evaluation. *)
Ltac decide_it := apply (bool_decide_unpack _); by vm_compute.

(** Regroup a chain of appends and conses to the right. *)
Ltac renest := repeat (rewrite <- ?app_assoc; simpl).

(** * Properties *)

(** ** Rasters *)

Lemma px_in_range im x y :
  shape_ok im → x < width im → y < height im → is_Some (px im x y).
Proof.
  intros [Hh Hw] Hx Hy. unfold px.
  destruct (lookup_lt_is_Some_2 (data im) y) as [row Hrow]; [lia|].
  rewrite Hrow. simpl. apply lookup_lt_is_Some_2.
  by rewrite (Forall_lookup_1 _ _ _ _ Hw Hrow).
Qed.

Lemma px_Some_range im x y p :
  shape_ok im → px im x y = Some p → x < width im ∧ y < height im.
Proof.
  intros [Hh Hw]. unfold px.
  destruct (data im !! y) as [row|] eqn:Hrow; simpl; [|done].
  intros Hp. split.
  - apply lookup_lt_Some in Hp.
    by rewrite (Forall_lookup_1 _ _ _ _ Hw Hrow) in Hp.
  - apply lookup_lt_Some in Hrow. lia.
Qed.

Lemma putpixel_spec im x y v :
  shape_ok im → x < width im → y < height im →
  ∃ im', putpixel im x y v = Ok im' ∧ shape_ok im' ∧
    width im' = width im ∧ height im' = height im ∧ mode im' = mode im ∧
    ∀ x' y', px im' x' y' =
      if decide (x' = x ∧ y' = y) then Some v else px im x' y'.
Proof.
  intros [Hh Hw] Hx Hy. unfold putpixel.
  rewrite decide_True by done. eexists. split; [done|].
  split; [|split; [done|split; [done|split; [done|]]]].
  - split; simpl.
    + by rewrite length_alter.
    + apply Forall_alter; [done|]. intros row Hrow ?.
      by rewrite length_insert.
  - intros x' y'. unfold px. simpl.
    destruct (decide (y' = y)) as [->|Hne].
    + rewrite list_lookup_alter_eq.
      destruct (data im !! y) as [row|] eqn:Hrow; simpl.
      * assert (length row = width im) as Hlen
          by exact (Forall_lookup_1 _ _ _ _ Hw Hrow).
        destruct (decide (x' = x)) as [->|Hx'].
        -- rewrite decide_True by done.
           apply list_lookup_insert_eq. lia.
        -- rewrite decide_False by (intros [? _]; done).
           by apply list_lookup_insert_ne.
      * apply lookup_ge_None in Hrow. lia.
    + rewrite decide_False by (intros [_ ?]; done).
      by rewrite list_lookup_alter_ne.
Qed.

Lemma new_shape_ok m sz c : shape_ok (new m sz c).
Proof.
  split; simpl.
  - by rewrite length_replicate.
  - apply Forall_replicate. by rewrite length_replicate.
Qed.

Lemma px_new m sz c x y :
  x < sz.1 → y < sz.2 → px (new m sz c) x y = Some c.
Proof.
  intros Hx Hy. unfold px. simpl.
  rewrite lookup_replicate_2 by done. simpl.
  by apply lookup_replicate_2.
Qed.

Lemma new_byte_valued m sz c : byte_px c → byte_valued (new m sz c).
Proof. intros Hc. apply Forall_replicate. by apply Forall_replicate. Qed.

(** *** Blending: mask 0 keeps the destination, mask 255 copies the source *)

Lemma DIV255_255 d : (0 ≤ d < 256)%Z → DIV255 (d * 255) = d.
Proof.
  intros Hd. unfold DIV255. cbv zeta. rewrite !Z.shiftr_div_pow2 by lia.
  change (2 ^ 8)%Z with 256%Z.
  Z.div_mod_to_equations. lia.
Qed.

Lemma BLEND_0 d s : (0 ≤ d < 256)%Z → BLEND 0 d s = d.
Proof.
  intros Hd. unfold BLEND.
  replace (d * (255 - 0) + s * 0)%Z with (d * 255)%Z by lia.
  by apply DIV255_255.
Qed.

Lemma BLEND_255 d s : (0 ≤ s < 256)%Z → BLEND 255 d s = s.
Proof.
  intros Hs. unfold BLEND.
  replace (d * (255 - 255) + s * 255)%Z with (s * 255)%Z by lia.
  by apply DIV255_255.
Qed.

Lemma blend_px_0 d s : byte_px d → blend_px 0 d s = d.
Proof.
  destruct d as [[[dr dg] db] da], s as [[[sr sg] sb] sa].
  intros (? & ? & ? & ?). simpl. by rewrite !BLEND_0.
Qed.

Lemma blend_px_255 d s : byte_px s → blend_px 255 d s = s.
Proof.
  destruct d as [[[dr dg] db] da], s as [[[sr sg] sb] sa].
  intros (? & ? & ? & ?). simpl. by rewrite !BLEND_255.
Qed.

(** *** Pasting *)

Lemma px_paste dst src box mask x y :
  px (paste dst src box mask) x y = pasted src box mask x y <$> px dst x y.
Proof.
  unfold px, paste. simpl. rewrite list_lookup_imap.
  destruct (data dst !! y) as [row|]; simpl; [|done].
  by rewrite list_lookup_imap.
Qed.

Lemma imap_idemp {A} (f : nat → A → A) (P : A → Prop) (l : list A) :
  Forall P l → (∀ i x, P x → f i (f i x) = f i x) →
  imap f (imap f l) = imap f l.
Proof.
  intros Hl Hf. apply list_eq. intros i. rewrite !list_lookup_imap.
  destruct (l !! i) as [x|] eqn:Hx; simpl; [|done].
  f_equal. apply Hf. by eapply Forall_lookup_1.
Qed.

(** Pasting an overlay of 8-bit pixels that are each fully transparent or
    fully opaque, with itself as mask, a second time changes nothing. *)
Lemma paste_mask_idempotent canvas overlay box :
  byte_valued canvas →
  (∀ x y s, px overlay x y = Some s → byte_px s ∧ binary_alpha s) →
  paste (paste canvas overlay box (Some overlay)) overlay box (Some overlay)
  = paste canvas overlay box (Some overlay).
Proof.
  intros Hc Ho.
  assert (∀ x y d, byte_px d →
            pasted overlay box (Some overlay) x y
              (pasted overlay box (Some overlay) x y d)
            = pasted overlay box (Some overlay) x y d) as Hidem.
  { intros x y d Hd. unfold pasted. case_decide; [|done].
    destruct (px overlay (x - box.1) (y - box.2)) as [s|] eqn:Hs; [|done].
    destruct (Ho _ _ _ Hs) as [Hbs [Ha|Ha]]; rewrite Ha.
    - rewrite (blend_px_0 d s) by done. by rewrite blend_px_0.
    - rewrite (blend_px_255 d s) by done. by rewrite blend_px_255. }
  unfold paste at 1 3. f_equal. simpl.
  apply (imap_idemp _ (Forall byte_px)); [done|].
  intros y row Hrow.
  apply (imap_idemp _ byte_px); [done|].
  intros x d Hd. by apply Hidem.
Qed.

Lemma paste_byte_valued dst src box :
  byte_valued dst → byte_valued src → byte_valued (paste dst src box None).
Proof.
  intros Hd Hs. unfold byte_valued, paste. simpl.
  apply Forall_lookup_2. intros y row. rewrite list_lookup_imap.
  destruct (data dst !! y) as [drow|] eqn:Hdrow; simpl; [|done].
  intros [= <-]. apply Forall_lookup_2. intros x p.
  rewrite list_lookup_imap.
  destruct (drow !! x) as [d|] eqn:Hdx; simpl; [|done].
  intros [= <-].
  assert (byte_px d) as Hbd.
  { exact (Forall_lookup_1 _ _ _ _ (Forall_lookup_1 _ _ _ _ Hd Hdrow) Hdx). }
  unfold pasted. case_decide; [|done].
  unfold px.
  destruct (data src !! (y - box.2)) as [srow|] eqn:Hsrow; simpl; [|done].
  destruct (srow !! (x - box.1)) as [s|] eqn:Hsx; [|done].
  exact (Forall_lookup_1 _ _ _ _ (Forall_lookup_1 _ _ _ _ Hs Hsrow) Hsx).
Qed.

Lemma elem_of_product {A B : Type} (xs : list A) (ys : list B) a b :
  (a, b) ∈ product xs ys ↔ a ∈ xs ∧ b ∈ ys.
Proof.
  unfold product. rewrite list_elem_of_bind. split.
  - intros (x & Hin & Hx). apply list_elem_of_bind in Hin as (y & Hin & Hy).
    apply list_elem_of_singleton in Hin. naive_solver.
  - intros [Ha Hb]. exists a. split; [|done].
    apply list_elem_of_bind. exists b. split; [|done].
    by apply list_elem_of_singleton.
Qed.

(** ** The splitter's loop *)

Section split_loop.

Variable design : Image.
Hypothesis design_shape : shape_ok design.

(** After the loop has run over the coordinates [cs], every pixel at one of
    them holds what the splitter is meant to write there, and every other
    pixel is as before. *)
Lemma split_design_loop cs D N :
  shape_ok D → shape_ok N →
  width D = width design → height D = height design →
  width N = width design → height N = height design →
  Forall (λ xy, xy.1 < width design ∧ xy.2 < height design) cs →
  ∃ D' N', for_each (split_design_body design) cs (D, N) = Ok (D', N') ∧
    shape_ok D' ∧ shape_ok N' ∧
    size D' = size design ∧ size N' = size design ∧
    mode D' = mode D ∧ mode N' = mode N ∧
    ∀ x y p, px design x y = Some p →
      px D' x y = (if decide ((x, y) ∈ cs) then Some (desired_px p)
                   else px D x y) ∧
      px N' x y = (if decide ((x, y) ∈ cs) then
                     if decide (p = NECESSARY_BLACK ∨ p = NECESSARY_WHITE)
                     then Some (necessary_px p) else px N x y
                   else px N x y).
Proof.
  revert D N. induction cs as [|[x0 y0] cs IH]; intros D N HD HN HDw HDh HNw HNh Hcs.
  - exists D, N. simpl. unfold size. split_and!; try done; congruence.
  - apply Forall_cons in Hcs as [[Hx0 Hy0] Hcs]. simpl in Hx0, Hy0.
    destruct (px_in_range design x0 y0 design_shape Hx0 Hy0) as [p0 Hp0].
    simpl. unfold getpixel. rewrite Hp0. simpl.
    destruct (putpixel_spec D x0 y0 (desired_px p0) HD)
      as (D1 & HD1 & HD1s & HD1w & HD1h & HD1m & HD1px); [lia..|].
    assert (∃ N1, shape_ok N1 ∧ width N1 = width design ∧
              height N1 = height design ∧ mode N1 = mode N ∧
              (∀ x' y', px N1 x' y' =
                 if decide (x' = x0 ∧ y' = y0) then
                   if decide (p0 = NECESSARY_BLACK ∨ p0 = NECESSARY_WHITE)
                   then Some (necessary_px p0) else px N x' y'
                 else px N x' y') ∧
              (split_design_body design (D, N) (x0, y0) = Ok (D1, N1)))
      as (N1 & HN1s & HN1w & HN1h & HN1m & HN1px & Hbody).
    { unfold split_design_body, getpixel. rewrite Hp0. simpl.
      unfold desired_px, necessary_px in *.
      destruct (decide (p0 = NECESSARY_BLACK)) as [Hb|Hb].
      - destruct (putpixel_spec N x0 y0 (0, 0, 0, 255)%Z HN)
          as (N1 & HN1 & ? & ? & ? & ? & HN1px); [lia..|].
        exists N1. rewrite HD1, HN1. simpl.
        split_and!; try done; try lia.
        intros x' y'. rewrite HN1px.
        by rewrite (decide_True (P := _ ∨ _)) by auto.
      - destruct (decide (p0 = NECESSARY_WHITE)) as [Hw|Hw].
        + destruct (putpixel_spec N x0 y0 (255, 255, 255, 255)%Z HN)
            as (N1 & HN1 & ? & ? & ? & ? & HN1px); [lia..|].
          exists N1. rewrite HD1, HN1. simpl.
          split_and!; try done; try lia.
          intros x' y'. rewrite HN1px.
          by rewrite (decide_True (P := _ ∨ _)) by auto.
        + exists N. rewrite HD1. simpl.
          split_and!; try done.
          intros x' y'. rewrite (decide_False (P := _ ∨ _)) by tauto.
          by case_decide. }
    unfold split_design_body, getpixel in Hbody. rewrite Hp0 in Hbody.
    simpl in Hbody. rewrite Hbody. simpl.
    destruct (IH D1 N1) as (D' & N' & Hrun & ? & ? & ? & ? & HD'm & HN'm & Hpx);
      try done; try lia.
    exists D', N'. rewrite Hrun.
    split_and!; try done; try congruence.
    intros x y p Hp. split.
    + destruct (Hpx x y p Hp) as [-> _]. rewrite HD1px.
      destruct (decide ((x, y) ∈ (x0, y0) :: cs)) as [Hin|Hnin];
        destruct (decide ((x, y) ∈ cs)) as [Hin'|Hnin'];
        destruct (decide (x = x0 ∧ y = y0)) as [[-> ->]|Hne];
        repeat coords; simplify_eq; try done; exfalso; tauto.
    + destruct (Hpx x y p Hp) as [_ ->]. rewrite HN1px.
      destruct (decide ((x, y) ∈ (x0, y0) :: cs)) as [Hin|Hnin];
        destruct (decide ((x, y) ∈ cs)) as [Hin'|Hnin'];
        destruct (decide (x = x0 ∧ y = y0)) as [[-> ->]|Hne];
        repeat coords; simplify_eq; repeat case_decide;
        try done; exfalso; tauto.
Qed.

End split_loop.

(** ** The design splitter *)

(** On a well-shaped 41 by 41 RGBA design the splitter returns, and its two
    overlays hold at every position of the design what [desired_px] and
    [necessary_px] say. *)
Lemma split_design_run (design : Image) :
  mode design = "RGBA" → size design = QRCODE_SIZE → shape_ok design →
  ∃ desired necessary,
    split_design design = Ok (desired, necessary) ∧
    shape_ok desired ∧ shape_ok necessary ∧
    size desired = QRCODE_SIZE ∧ size necessary = QRCODE_SIZE ∧
    mode desired = "RGBA" ∧ mode necessary = "RGBA" ∧
    ∀ x y p, px design x y = Some p →
      px desired x y = Some (desired_px p) ∧
      px necessary x y = Some (necessary_px p).
Proof.
  intros Hmode Hsize Hshape. unfold split_design.
  rewrite !decide_True by done.
  injection Hsize as Hw Hh.
  destruct (split_design_loop design Hshape
              (product (seq 0 (width design)) (seq 0 (height design)))
              (new "RGBA" QRCODE_SIZE (0, 0, 0, 0)%Z)
              (new "RGBA" QRCODE_SIZE (0, 0, 0, 0)%Z))
    as (D & N & Hrun & HDshape & HNshape & HDs & HNs & HDm & HNm & Hpx);
    try apply new_shape_ok; try (simpl; congruence).
  { apply Forall_forall. intros [x y] Hin.
    apply elem_of_product in Hin as [Hx%elem_of_seq Hy%elem_of_seq].
    simpl. lia. }
  exists D, N. cbv zeta. rewrite Hrun. unfold size in *.
  split_and!; [done | done | done | by rewrite HDs, Hw, Hh
              | by rewrite HNs, Hw, Hh | done | done |].
  intros x y p Hp.
  destruct (px_Some_range design x y p Hshape Hp) as [Hx Hy].
  destruct (Hpx x y p Hp) as [HD HN].
  rewrite decide_True in HD, HN
    by (apply elem_of_product; rewrite !elem_of_seq; lia).
  rewrite (px_new "RGBA" QRCODE_SIZE) in HN by (simpl; lia).
  rewrite HD, HN. split; [done|].
  unfold necessary_px. repeat case_decide; try done; exfalso; tauto.
Qed.

(** C4.  For a 41 by 41 RGBA design, [split_design] returns two overlays,
    and at every pixel position: where the design holds the necessary-black
    sentinel (0,0,255,255) both overlays hold opaque black; where it holds
    the necessary-white sentinel (255,255,0,255) both hold opaque white;
    elsewhere the desired overlay holds the design's pixel and the necessary
    overlay is fully transparent. *)
Theorem split_design_pixels (design : Image) :
  mode design = "RGBA" → size design = QRCODE_SIZE → shape_ok design →
  ∃ desired necessary,
    split_design design = Ok (desired, necessary) ∧
    size desired = QRCODE_SIZE ∧ size necessary = QRCODE_SIZE ∧
    ∀ x y, x < 41 → y < 41 →
      ∃ p, px design x y = Some p ∧
        (p = NECESSARY_BLACK →
           px desired x y = Some (0, 0, 0, 255)%Z ∧
           px necessary x y = Some (0, 0, 0, 255)%Z) ∧
        (p = NECESSARY_WHITE →
           px desired x y = Some (255, 255, 255, 255)%Z ∧
           px necessary x y = Some (255, 255, 255, 255)%Z) ∧
        (p ≠ NECESSARY_BLACK → p ≠ NECESSARY_WHITE →
           px desired x y = Some p ∧
           px necessary x y = Some (0, 0, 0, 0)%Z).
Proof.
  intros Hmode Hsize Hshape.
  destruct (split_design_run design Hmode Hsize Hshape)
    as (D & N & Hrun & _ & _ & HDs & HNs & _ & _ & Hpx).
  exists D, N. split_and!; [done..|].
  intros x y Hx Hy.
  injection Hsize as Hw Hh.
  destruct (px_in_range design x y Hshape) as [p Hp]; [lia..|].
  exists p. split; [done|].
  destruct (Hpx x y p Hp) as [-> ->].
  unfold desired_px, necessary_px.
  split_and!.
  - intros ->. by rewrite !decide_True by auto.
  - intros ->. rewrite decide_False by done.
    by rewrite !decide_True by auto.
  - intros Hb Hw'. rewrite !decide_False by tauto. done.
Qed.

Lemma fixture_design_shape : shape_ok Fixture.design.
Proof. unfold shape_ok. apply (bool_decide_unpack _). by vm_compute. Qed.

(** The statement of C4 at [Fixture.design]. *)
Lemma split_design_pixels_witness :
  ∃ desired necessary,
    split_design Fixture.design = Ok (desired, necessary) ∧
    size desired = QRCODE_SIZE ∧ size necessary = QRCODE_SIZE ∧
    ∀ x y, x < 41 → y < 41 →
      ∃ p, px Fixture.design x y = Some p ∧
        (p = NECESSARY_BLACK →
           px desired x y = Some (0, 0, 0, 255)%Z ∧
           px necessary x y = Some (0, 0, 0, 255)%Z) ∧
        (p = NECESSARY_WHITE →
           px desired x y = Some (255, 255, 255, 255)%Z ∧
           px necessary x y = Some (255, 255, 255, 255)%Z) ∧
        (p ≠ NECESSARY_BLACK → p ≠ NECESSARY_WHITE →
           px desired x y = Some p ∧
           px necessary x y = Some (0, 0, 0, 0)%Z).
Proof.
  apply (split_design_pixels Fixture.design);
    [reflexivity | reflexivity | exact fixture_design_shape].
Defined.

(** The claim C5 as the specification words it, with [InvalidDesignError],
    fails on an RGB raster: the splitter raises, and what it raises is an
    [AssertionError]. *)
Lemma split_design_error_is_assertion :
  mode Fixture.rgb_design ≠ "RGBA" ∧
  ¬ ∃ e, split_design Fixture.rgb_design = Raise e ∧
         exn_name e = "InvalidDesignError".
Proof.
  split; [done|]. intros (e & He & Hname).
  vm_compute in He. by injection He as <-.
Qed.

(** C5, amended.  [split_design] raises [AssertionError] whenever the mode
    of its input is not RGBA or its size is not 41 by 41; it returns no
    overlays, and [main] raises the same error before it builds a session,
    so no worker starts. *)
Theorem split_design_rejects (design : Image) :
  mode design ≠ "RGBA" ∨ size design ≠ QRCODE_SIZE →
  split_design design = Raise AssertionError ∧
  ∀ name href concurrency stop_if_found r cwd,
    main name design href concurrency stop_if_found r cwd
    = Raise AssertionError.
Proof.
  intros Hbad.
  assert (split_design design = Raise AssertionError) as Hsplit.
  { unfold split_design. repeat case_decide; try done. exfalso. tauto. }
  split; [done|]. intros. unfold main. by rewrite Hsplit.
Qed.

(** The statement of C5, amended, at two rasters: one in mode RGB, one 40
    pixels wide. *)
Lemma split_design_rejects_witness :
  (split_design Fixture.rgb_design = Raise AssertionError ∧
   ∀ name href concurrency stop_if_found r cwd,
     main name Fixture.rgb_design href concurrency stop_if_found r cwd
     = Raise AssertionError) ∧
  (split_design Fixture.narrow_design = Raise AssertionError ∧
   ∀ name href concurrency stop_if_found r cwd,
     main name Fixture.narrow_design href concurrency stop_if_found r cwd
     = Raise AssertionError).
Proof.
  split.
  - apply (split_design_rejects Fixture.rgb_design). left. done.
  - apply (split_design_rejects Fixture.narrow_design). right. done.
Defined.

(** ** The compositor *)

Lemma necessary_px_byte p : byte_px (necessary_px p) ∧ binary_alpha (necessary_px p).
Proof.
  unfold necessary_px, binary_alpha.
  repeat case_decide; simpl; split; (lia || auto).
Qed.

(** C6.  Pasting the necessary overlay of a design, at offset
    (margin, margin) and with its own alpha band as mask, on a canvas that
    was composited with it, changes no pixel of the canvas. *)
Theorem composite_paste_idempotent `{External} (design qrcode : Image) :
  mode design = "RGBA" → size design = QRCODE_SIZE → shape_ok design →
  byte_valued
    (paste_source (new "RGBA" candidate_size (0, 0, 0, 0)%Z) qrcode) →
  ∃ desired necessary,
    split_design design = Ok (desired, necessary) ∧
    paste (composite qrcode necessary) necessary
      (QART_MARGIN, QART_MARGIN) (Some necessary)
    = composite qrcode necessary.
Proof.
  intros Hmode Hsize Hshape Hbytes.
  destruct (split_design_run design Hmode Hsize Hshape)
    as (D & N & Hrun & _ & HNshape & _ & HNs & _ & _ & Hpx).
  exists D, N. split; [done|]. unfold composite.
  apply paste_mask_idempotent.
  - apply paste_byte_valued; [|done].
    apply new_byte_valued. simpl. lia.
  - intros x y s Hs.
    destruct (px_Some_range N x y s HNshape Hs) as [Hx Hy].
    injection HNs as HNw HNh. injection Hsize as Hw Hh.
    destruct (px_in_range design x y Hshape) as [p Hp]; [lia..|].
    destruct (Hpx x y p Hp) as [_ HN].
    assert (s = necessary_px p) as -> by congruence.
    apply necessary_px_byte.
Qed.

Lemma fixture_qrcode_bytes :
  byte_valued
    (paste_source (H := Fixture.stub)
       (new "RGBA" candidate_size (0, 0, 0, 0)%Z) Fixture.qrcode).
Proof. unfold byte_valued. apply (bool_decide_unpack _). by vm_compute. Qed.

(** The statement of C6 at [Fixture.design] and [Fixture.qrcode]. *)
Lemma composite_paste_idempotent_witness :
  ∃ desired necessary,
    split_design Fixture.design = Ok (desired, necessary) ∧
    paste (composite (H := Fixture.stub) Fixture.qrcode necessary) necessary
      (QART_MARGIN, QART_MARGIN) (Some necessary)
    = composite (H := Fixture.stub) Fixture.qrcode necessary.
Proof.
  apply (composite_paste_idempotent (H := Fixture.stub)
           Fixture.design Fixture.qrcode);
    [reflexivity | reflexivity | exact fixture_design_shape
    | exact fixture_qrcode_bytes].
Defined.

(** ** The acceptance rule *)

Lemma exactly_one_qr_iff info :
  exactly_one_qr info = true ↔
  length info = 1 ∧ ∃ d, info = [d] ∧ type d = "QRCODE".
Proof.
  destruct info as [|d [|d' info]]; simpl.
  - split; [done|]. by intros [? _].
  - rewrite bool_decide_eq_true. split.
    + intros Ht. split; [done|]. by exists d.
    + intros [_ (d' & [= <-] & Ht)]. done.
  - split; [done|]. by intros [? _].
Qed.

Lemma eval_ok_spec info : eval_ok info = Ok (exactly_one_qr info).
Proof. by destruct info as [|d [|d' info]]. Qed.

Lemma search_ok_spec info : search_ok info = Ok (exactly_one_qr info).
Proof. by destruct info as [|d [|d' info]]. Qed.

(** ** The scorer *)

Section scorer.
Context `{External}.

(** The loop adds one to [success] for every passing quality, and hands
    every trial raster to the decoder once. *)
Lemma eval_qrcode_loop padded qs success calls :
  for_each (eval_qrcode_body padded) qs (success, calls)
  = Ok (success + length (List.filter (passes padded) qs),
        calls ++ map (trial padded) qs).
Proof.
  revert success calls. induction qs as [|q qs IH]; intros success calls.
  - simpl. by rewrite Nat.add_0_r, app_nil_r.
  - simpl. rewrite eval_ok_spec. simpl.
    fold (trial padded q). fold (passes padded q).
    destruct (passes padded q); simpl; rewrite IH; simpl; f_equal; f_equal;
      try lia; by rewrite <- app_assoc.
Qed.

Lemma expand_facts (qrcode : Image) :
  resize_contract → size qrcode = candidate_size →
  size (expand qrcode) = (980, 980) ∧ mode (expand qrcode) = "RGBA" ∧
  (∀ x y, x < 980 → y < 980 → ¬ (245 ≤ x < 735 ∧ 245 ≤ y < 735) →
     px (expand qrcode) x y = Some (0, 0, 0, 0)%Z) ∧
  (∀ x y s, px (resize qrcode (490, 490)) x y = Some s → x < 490 → y < 490 →
     px (expand qrcode) (245 + x) (245 + y)
     = Some (blend_px (alpha s) (0, 0, 0, 0)%Z s)).
Proof.
  intros Hresize [= Hw Hh]. unfold expand, size. rewrite Hw, Hh.
  replace (49 * 10) with 490 by lia. replace (49 * 20) with 980 by lia.
  replace (49 * 5) with 245 by lia.
  pose proof (Hresize qrcode (490, 490)) as [= Hrw Hrh].
  split; [reflexivity|]. split; [reflexivity|]. split.
  - intros x y Hx Hy Hout. rewrite px_paste.
    rewrite px_new by (unfold fst, snd; assumption).
    unfold fmap, option_fmap, option_map.
    f_equal. unfold pasted, fst, snd. rewrite Hrw, Hrh.
    rewrite decide_False; [reflexivity|lia].
  - intros x y s Hs Hx Hy. rewrite px_paste.
    rewrite px_new by (unfold fst, snd; lia).
    unfold fmap, option_fmap, option_map.
    f_equal. unfold pasted, fst, snd. rewrite Hrw, Hrh.
    rewrite decide_True by lia.
    replace (245 + x - 245) with x by lia.
    replace (245 + y - 245) with y by lia.
    rewrite Hs. reflexivity.
Qed.

(** C2.  For a 49 by 49 candidate, [eval_qrcode] pads it: scaled to 490 by
    490 and pasted at (245, 245) in a 980 by 980 canvas whose pixels outside
    that box stay fully transparent.  It then hands to the decoder, for each
    quality 1 to 95 in turn, the padded raster flattened to RGB, encoded as
    JPEG at that quality and read back, and nothing else; the score is one
    plus the number of qualities at which the decoder reports exactly one
    code of symbology QR. *)
Theorem eval_qrcode_score (qrcode : Image) :
  resize_contract → size qrcode = candidate_size →
  let padded := expand qrcode in
  eval_qrcode qrcode
  = Ok (1 + length (List.filter (passes padded) (seq 1 95)),
        map (trial padded) (seq 1 95)) ∧
  size padded = (980, 980) ∧ mode padded = "RGBA" ∧
  (∀ x y, x < 980 → y < 980 → ¬ (245 ≤ x < 735 ∧ 245 ≤ y < 735) →
     px padded x y = Some (0, 0, 0, 0)%Z) ∧
  (∀ x y s, px (resize qrcode (490, 490)) x y = Some s → x < 490 → y < 490 →
     px padded (245 + x) (245 + y)
     = Some (blend_px (alpha s) (0, 0, 0, 0)%Z s)).
Proof.
  intros Hresize Hsize padded. split; [|by apply expand_facts].
  unfold eval_qrcode. injection Hsize as Hw Hh.
  rewrite !decide_True by done. cbv zeta.
  by rewrite eval_qrcode_loop.
Qed.

(** A 49 by 49 candidate is always scored: [eval_qrcode] does not raise. *)
Lemma eval_qrcode_total (qrcode : Image) :
  size qrcode = candidate_size →
  eval_qrcode qrcode
  = Ok (1 + length (List.filter (passes (expand qrcode)) (seq 1 95)),
        map (trial (expand qrcode)) (seq 1 95)).
Proof.
  intros Hsize. unfold eval_qrcode. injection Hsize as Hw Hh.
  rewrite !decide_True by done. cbv zeta.
  by rewrite eval_qrcode_loop.
Qed.

End scorer.

Lemma stub_resize_contract : resize_contract (H := Fixture.stub).
Proof. intros im [w h]. reflexivity. Qed.

(** The statement of C2 at [Fixture.qrcode], with the stand-in
    capabilities. *)
Lemma eval_qrcode_score_witness :
  let padded := expand (H := Fixture.stub) Fixture.qrcode in
  eval_qrcode (H := Fixture.stub) Fixture.qrcode
  = Ok (1 + length (List.filter (passes (H := Fixture.stub) padded)
                      (seq 1 95)),
        map (trial (H := Fixture.stub) padded) (seq 1 95)) ∧
  size padded = (980, 980) ∧ mode padded = "RGBA" ∧
  (∀ x y, x < 980 → y < 980 → ¬ (245 ≤ x < 735 ∧ 245 ≤ y < 735) →
     px padded x y = Some (0, 0, 0, 0)%Z) ∧
  (∀ x y s,
     px (resize (External := Fixture.stub) Fixture.qrcode (490, 490)) x y
     = Some s →
     x < 490 → y < 490 →
     px padded (245 + x) (245 + y)
     = Some (blend_px (alpha s) (0, 0, 0, 0)%Z s)).
Proof.
  apply (eval_qrcode_score (H := Fixture.stub) Fixture.qrcode);
    [exact stub_resize_contract | reflexivity].
Defined.

(** With the stand-in capabilities, qualities 10 to 95 pass: the score of
    [Fixture.qrcode] is 87. *)
Example stub_score :
  fst <$> (match eval_qrcode (H := Fixture.stub) Fixture.qrcode with
           | Ok r => Some r
           | Raise _ => None
           end) = Some 87.
Proof.
  rewrite (eval_qrcode_total (H := Fixture.stub)) by reflexivity.
  reflexivity.
Qed.

(** ** The validator *)

Section validator.
Context `{External}.

(** C1.  At [Validating], the worker resizes the candidate to twice its
    width and twice its height, hands that raster to the decoder once, and
    moves to [Scoring] exactly when the decoder reports one code whose
    symbology is QR; on any other report it returns to the loop head without
    raising, where, unless the stop event is set, it draws fresh
    parameters. *)
Theorem validate_accepts_exactly (j : job) (i : input) (p : SearchParameters)
  (canvas : Image) (w : world) :
  resize_contract →
  let upscaled := resize canvas (width canvas * 2, height canvas * 2) in
  let info := decode_barcode upscaled in
  let w' := log_calls [upscaled] w in
  size upscaled = (width canvas * 2, height canvas * 2) ∧
  worker_step j i (Validating p canvas) w
  = (if exactly_one_qr info then Scoring p canvas else Sampling, w') ∧
  decoder_calls w' = decoder_calls w ++ [upscaled] ∧
  stop_event w' = stop_event w ∧ storage w' = storage w ∧
  (exactly_one_qr info = true ↔
     length info = 1 ∧ ∃ d, info = [d] ∧ type d = "QRCODE") ∧
  (∀ i', stop_event w = false →
     worker_step j i' Sampling w'
     = (Rendering (drawn i') (draw_url j (drawn i')), w')).
Proof.
  intros Hresize upscaled info w'.
  split_and!; try done.
  - apply Hresize.
  - subst upscaled info w'. unfold worker_step. cbv zeta.
    rewrite search_ok_spec.
    by destruct (exactly_one_qr _).
  - apply exactly_one_qr_iff.
  - intros i' Hstop. unfold worker_step.
    change (stop_event w') with (stop_event w). by rewrite Hstop.
Qed.

(** C7.  The test of the validator (line 115) and the test of the scorer
    (line 158) are the same function of the decoder's report: both hold
    exactly when the report has length 1 and its only code has symbology
    QR.  So, whatever the decoder reports, the validator accepts exactly
    when the scorer counts the quality level. *)
Theorem acceptance_rule_shared (info : list Decoded) :
  search_ok info = eval_ok info ∧
  search_ok info = Ok (exactly_one_qr info) ∧
  (exactly_one_qr info = true ↔
     length info = 1 ∧ ∃ d, info = [d] ∧ type d = "QRCODE") ∧
  ∀ (j : job) (i : input) (p : SearchParameters) (canvas : Image)
    (w : world) (qrcode : Image) (success : nat) (calls : list Image)
    (quality : nat),
    let D := with_decoder H (λ _, info) in
    ((worker_step (H := D) j i (Validating p canvas) w).1 = Scoring p canvas
     ↔ exactly_one_qr info = true) ∧
    ((∃ calls', eval_qrcode_body (H := D) qrcode (success, calls) quality
                = Ok (success + 1, calls'))
     ↔ exactly_one_qr info = true).
Proof.
  split_and!.
  - by rewrite search_ok_spec, eval_ok_spec.
  - apply search_ok_spec.
  - apply exactly_one_qr_iff.
  - intros. split.
    + unfold worker_step. cbv zeta.
      change (decode_barcode _) with info.
      rewrite search_ok_spec.
      by destruct (exactly_one_qr info).
    + unfold eval_qrcode_body. cbv zeta.
      change (decode_barcode _) with info.
      rewrite eval_ok_spec. simpl.
      destruct (exactly_one_qr info); split; try done.
      * intros _. by eexists.
      * intros (calls' & [= Hs _]). lia.
Qed.

End validator.

(** The statement of C1 at [Fixture.qrcode], with the stand-in
    capabilities. *)
Lemma validate_accepts_exactly_witness :
  let j := Fixture.job in
  let i := mkInput Fixture.params Fixture.error_reply in
  let p := Fixture.params in
  let canvas := Fixture.qrcode in
  let w := Fixture.world0 in
  let upscaled :=
    resize (External := Fixture.stub) canvas
      (width canvas * 2, height canvas * 2) in
  let info := decode_barcode (External := Fixture.stub) upscaled in
  let w' := log_calls [upscaled] w in
  size upscaled = (width canvas * 2, height canvas * 2) ∧
  worker_step (H := Fixture.stub) j i (Validating p canvas) w
  = (if exactly_one_qr info then Scoring p canvas else Sampling, w') ∧
  decoder_calls w' = decoder_calls w ++ [upscaled] ∧
  stop_event w' = stop_event w ∧ storage w' = storage w ∧
  (exactly_one_qr info = true ↔
     length info = 1 ∧ ∃ d, info = [d] ∧ type d = "QRCODE") ∧
  (∀ i', stop_event w = false →
     worker_step (H := Fixture.stub) j i' Sampling w'
     = (Rendering (drawn i')
          (draw_url (H := Fixture.stub) j (drawn i')), w')).
Proof.
  exact (validate_accepts_exactly (H := Fixture.stub) Fixture.job
           (mkInput Fixture.params Fixture.error_reply) Fixture.params
           Fixture.qrcode Fixture.world0 stub_resize_contract).
Defined.

(** Reports of no code, of one QR code, of one code of another symbology
    and of two QR codes: reject, accept, reject, reject. *)
Example acceptance_samples :
  exactly_one_qr [] = false ∧
  exactly_one_qr [mkDecoded "QRCODE" "a"] = true ∧
  exactly_one_qr [mkDecoded "EAN13" "a"] = false ∧
  exactly_one_qr [mkDecoded "QRCODE" "a"; mkDecoded "QRCODE" "b"] = false ∧
  search_ok [mkDecoded "QRCODE" "a"; mkDecoded "QRCODE" "b"] = Ok false ∧
  eval_ok [] = Ok false.
Proof. by vm_compute. Qed.

(** ** Interleavings of the workers *)

Section session.
Context `{External}.

Lemma run_app j es1 es2 s : run j (es1 ++ es2) s = run j es2 (run j es1 s).
Proof. unfold run. by rewrite foldl_app. Qed.

Lemma run_cons j e es s : run j (e :: es) s = run j es (session_step j s e).
Proof. done. Qed.

(** An event that is not a step of worker [k] leaves its phase alone. *)
Lemma session_step_other j s e k :
  not_step_of k e → workers (session_step j s e) !! k = workers s !! k.
Proof.
  destruct e as [k' i|]; simpl; [|done]. intros Hne.
  destruct (workers s !! k') as [ph|] eqn:Hph; [|done].
  destruct (worker_step j i ph (shared s)) as [ph' w']. simpl.
  by rewrite list_lookup_insert_ne.
Qed.

Lemma run_others j es s k :
  Forall (not_step_of k) es → workers (run j es s) !! k = workers s !! k.
Proof.
  revert s. induction es as [|e es IH]; intros s Hes; [done|].
  apply Forall_cons in Hes as [He Hes].
  rewrite run_cons, IH by done. by apply session_step_other.
Qed.

Lemma session_step_own j s k i ph :
  workers s !! k = Some ph →
  workers (session_step j s (Step k i)) !! k
  = Some (worker_step j i ph (shared s)).1 ∧
  shared (session_step j s (Step k i)) = (worker_step j i ph (shared s)).2.
Proof.
  intros Hph. simpl. rewrite Hph.
  destruct (worker_step j i ph (shared s)) as [ph' w']. simpl.
  split; [|done]. apply list_lookup_insert_eq. by eapply lookup_lt_Some.
Qed.

Lemma own_step k e : ¬ not_step_of k e → ∃ i, e = Step k i.
Proof.
  destruct e as [k' i|]; simpl; [|tauto]. intros Hown.
  destruct (decide (k' = k)) as [->|]; [by exists i|tauto].
Qed.

(** A worker that stands at [Persisting] stays there until its next step,
    which writes the file. *)
Lemma persisting_writes j k p canvas score es s :
  workers s !! k = Some (Persisting p canvas score) →
  workers (run j es s) !! k = Some (Persisting p canvas score) ∨
  ∃ es1 i es2, es = es1 ++ Step k i :: es2 ∧
    workers (run j es1 s) !! k = Some (Persisting p canvas score) ∧
    storage (shared (run j (es1 ++ [Step k i]) s))
      !! filename (name j) score p = Some canvas.
Proof.
  revert s. induction es as [|e es IH]; intros s Hph; [by left|].
  destruct (decide (not_step_of k e)) as [Hother|Hown].
  - rewrite run_cons.
    destruct (IH (session_step j s e)) as [Hstay|(es1 & i & es2 & -> & ? & ?)].
    { by rewrite session_step_other. }
    + by left.
    + right. by exists (e :: es1), i, es2.
  - right. apply own_step in Hown as [i ->].
    exists [], i, es. split_and!; [done..|].
    simpl. rewrite Hph. simpl. apply lookup_insert_eq.
Qed.

(** A worker that stands at [Scoring] is there, or at [Persisting] with the
    score, or has written the file. *)
Lemma scoring_persists j k p canvas score calls es s :
  eval_qrcode canvas = Ok (score, calls) →
  workers s !! k = Some (Scoring p canvas) →
  workers (run j es s) !! k = Some (Scoring p canvas) ∨
  workers (run j es s) !! k = Some (Persisting p canvas score) ∨
  ∃ es1 i es2, es = es1 ++ Step k i :: es2 ∧
    workers (run j es1 s) !! k = Some (Persisting p canvas score) ∧
    storage (shared (run j (es1 ++ [Step k i]) s))
      !! filename (name j) score p = Some canvas.
Proof.
  intros Heval Hph. revert s Hph.
  induction es as [|e es IH]; intros s Hph; [by left|].
  destruct (decide (not_step_of k e)) as [Hother|Hown].
  - rewrite run_cons.
    destruct (IH (session_step j s e))
      as [?|[?|(es1 & i & es2 & -> & ? & ?)]].
    { by rewrite session_step_other. }
    + by left.
    + by right; left.
    + right; right. by exists (e :: es1), i, es2.
  - apply own_step in Hown as [i ->]. rewrite run_cons.
    destruct (session_step_own j s k i _ Hph) as [Hk _].
    unfold worker_step in Hk. rewrite Heval in Hk.
    simpl in Hk.
    destruct (persisting_writes j k p canvas score es _ Hk)
      as [?|(es1 & i' & es2 & -> & ? & ?)].
    + by right; left.
    + right; right. by exists (Step k i :: es1), i', es2.
Qed.

(** A step never reads the stop event outside the loop head. *)
Lemma stop_read_at_loop_head_only j i ph w b :
  ph ≠ Sampling →
  let wb := mkWorld b (storage w) (decoder_calls w) in
  (worker_step j i ph wb).1 = (worker_step j i ph w).1 ∧
  storage (worker_step j i ph wb).2 = storage (worker_step j i ph w).2 ∧
  decoder_calls (worker_step j i ph wb).2
  = decoder_calls (worker_step j i ph w).2.
Proof.
  intros Hph wb.
  destruct ph; unfold worker_step; cbv zeta; try done.
  - destruct (render (reply i)); done.
  - destruct (search_ok _) as [[]|]; done.
  - destruct (eval_qrcode canvas) as [[]|]; done.
  - destruct (stop_if_found j); done.
Qed.

(** C8.  Let worker [k] stand at [Scoring] with a 49 by 49 candidate.  The
    scorer returns a score.  Whatever the other workers do and whenever the
    stop event is set, before, between or after the steps of worker [k]:
    its next two steps end the scoring and write the candidate under its
    file name; it cannot be at [Exited] without having done so; and outside
    the loop head no step of a worker depends on the stop event. *)
Theorem scoring_survives_stop (j : job) (s : session) (k : nat)
  (p : SearchParameters) (canvas : Image) :
  size canvas = candidate_size →
  workers s !! k = Some (Scoring p canvas) →
  ∃ score calls,
    eval_qrcode canvas = Ok (score, calls) ∧
    (∀ es0 i1 es1 i2,
       Forall (not_step_of k) es0 → Forall (not_step_of k) es1 →
       let s2 := run j (es0 ++ Step k i1 :: es1 ++ [Step k i2]) s in
       workers s2 !! k = Some Stopping ∧
       storage (shared s2) !! filename (name j) score p = Some canvas) ∧
    (∀ es, workers (run j es s) !! k = Some Exited →
       ∃ es1 i es2, es = es1 ++ Step k i :: es2 ∧
         workers (run j es1 s) !! k = Some (Persisting p canvas score) ∧
         storage (shared (run j (es1 ++ [Step k i]) s))
           !! filename (name j) score p = Some canvas) ∧
    (∀ i ph w b, ph ≠ Sampling →
       let wb := mkWorld b (storage w) (decoder_calls w) in
       (worker_step j i ph wb).1 = (worker_step j i ph w).1 ∧
       storage (worker_step j i ph wb).2 = storage (worker_step j i ph w).2 ∧
       decoder_calls (worker_step j i ph wb).2
       = decoder_calls (worker_step j i ph w).2).
Proof.
  intros Hsize Hph.
  assert (∃ score calls, eval_qrcode canvas = Ok (score, calls))
    as (score & calls & Heval)
    by (eexists _, _; exact (eval_qrcode_total canvas Hsize)).
  exists score, calls. split; [exact Heval|]. split_and!.
  - intros es0 i1 es1 i2 Hes0 Hes1 s2. subst s2.
    rewrite run_app, run_cons, run_app.
    set (s0 := run j es0 s).
    assert (workers s0 !! k = Some (Scoring p canvas)) as H0
      by (unfold s0; by rewrite run_others).
    destruct (session_step_own j s0 k i1 _ H0) as [H1 _].
    unfold worker_step in H1. rewrite Heval in H1. cbn [fst] in H1.
    set (s1 := run j es1 (session_step j s0 (Step k i1))).
    assert (workers s1 !! k = Some (Persisting p canvas score)) as H2
      by (unfold s1; by rewrite run_others).
    destruct (session_step_own j s1 k i2 _ H2) as [H3 H4].
    change (run j [Step k i2] s1) with (session_step j s1 (Step k i2)).
    split; [exact H3|].
    rewrite H4. apply lookup_insert_eq.
  - intros es Hexit.
    destruct (scoring_persists j k p canvas _ _ es s Heval Hph)
      as [Hs|[Hs|Hs]]; [congruence..|done].
  - apply stop_read_at_loop_head_only.
Qed.

(** *** Renderer failures *)

Lemma render_failure_raises r e : render_failure r e → render r = Raise e.
Proof.
  destruct 1 as [|st c Hlen|st c x d rest Hsplit Hm
                |st c x d rest e Hsplit Hm Hpng
                |st c x d rest q Hsplit Hm Hpng Hsize]; unfold render.
  - done.
  - destruct (Py.split DQUOTE c) as [|? [|? ?]]; simpl in *; try done; lia.
  - rewrite Hsplit. fold MARKER. by rewrite Hm.
  - rewrite Hsplit. fold MARKER. rewrite Hm. cbv zeta. by rewrite Hpng.
  - rewrite Hsplit. fold MARKER. rewrite Hm. cbv zeta. rewrite Hpng. simpl.
    unfold size in Hsize.
    repeat case_decide; try done. exfalso. apply Hsize.
    f_equal; done.
Qed.


(** An exception that left [search_qrcode] stays: the worker is over. *)
Lemma raised_absorbing j k e es s :
  workers s !! k = Some (Raised e) →
  workers (run j es s) !! k = Some (Raised e).
Proof.
  revert s. induction es as [|ev es IH]; intros s Hph; [done|].
  rewrite run_cons. apply IH.
  destruct (decide (not_step_of k ev)) as [Hother|Hown].
  - by rewrite session_step_other.
  - apply own_step in Hown as [i ->].
    by destruct (session_step_own j s k i _ Hph) as [-> _].
Qed.

(** C3, amended.  When the reply to a worker's request is a transport
    failure or a malformed payload (no quoted payload, no marker, no
    readable image, wrong raster size), the exception leaves
    [search_qrcode]: the worker ends in it and never samples again.  The
    failure stays in that worker: what the workers share is unchanged, the
    stop event included, and every other worker stands where it stood.
    The status of a response is not looked at: only its body decides. *)
Theorem render_failure_ends_worker (j : job) (s : session) (k : nat)
  (i : input) (p : SearchParameters) (url : string) (e : exn) :
  workers s !! k = Some (Rendering p url) →
  render_failure (reply i) e →
  let s' := session_step j s (Step k i) in
  workers s' !! k = Some (Raised e) ∧
  (∀ es, workers (run j es s') !! k = Some (Raised e)) ∧
  shared s' = shared s ∧
  (∀ k', k' ≠ k → workers s' !! k' = workers s !! k') ∧
  (∀ status status' content,
     render (Response status content) = render (Response status' content)).
Proof.
  intros Hph Hfail s'.
  destruct (session_step_own j s k i _ Hph) as [Hk Hw].
  unfold worker_step in Hk, Hw.
  rewrite (render_failure_raises _ _ Hfail) in Hk, Hw. simpl in Hk, Hw.
  split_and!; try done.
  - intros es. by apply raised_absorbing.
  - intros k' Hne. by apply session_step_other.
Qed.

End session.

(** The statement of C8 at [Fixture.scoring_session], with the stand-in
    capabilities. *)
Lemma scoring_survives_stop_witness :
  let j := Fixture.job in
  let s := Fixture.scoring_session in
  let p := Fixture.params in
  let canvas := Fixture.qrcode in
  ∃ score calls,
    eval_qrcode (H := Fixture.stub) canvas = Ok (score, calls) ∧
    (∀ es0 i1 es1 i2,
       Forall (not_step_of 0) es0 → Forall (not_step_of 0) es1 →
       let s2 := run (H := Fixture.stub) j
                   (es0 ++ Step 0 i1 :: es1 ++ [Step 0 i2]) s in
       workers s2 !! 0 = Some Stopping ∧
       storage (shared s2) !! filename (name j) score p = Some canvas) ∧
    (∀ es, workers (run (H := Fixture.stub) j es s) !! 0 = Some Exited →
       ∃ es1 i es2, es = es1 ++ Step 0 i :: es2 ∧
         workers (run (H := Fixture.stub) j es1 s) !! 0
         = Some (Persisting p canvas score) ∧
         storage (shared (run (H := Fixture.stub) j (es1 ++ [Step 0 i]) s))
           !! filename (name j) score p = Some canvas) ∧
    (∀ i ph w b, ph ≠ Sampling →
       let wb := mkWorld b (storage w) (decoder_calls w) in
       (worker_step (H := Fixture.stub) j i ph wb).1
       = (worker_step (H := Fixture.stub) j i ph w).1 ∧
       storage (worker_step (H := Fixture.stub) j i ph wb).2
       = storage (worker_step (H := Fixture.stub) j i ph w).2 ∧
       decoder_calls (worker_step (H := Fixture.stub) j i ph wb).2
       = decoder_calls (worker_step (H := Fixture.stub) j i ph w).2).
Proof.
  exact (scoring_survives_stop (H := Fixture.stub) Fixture.job
           Fixture.scoring_session 0 Fixture.params Fixture.qrcode
           eq_refl eq_refl).
Defined.

(** The stop event is set before the first worker scores and again before
    it saves; a second worker exits at its loop head meanwhile.  The first
    worker still scores (87), saves the candidate under its name, and only
    then exits. *)
Example stop_during_scoring :
  let i := mkInput Fixture.params Fixture.error_reply in
  let s := run (H := Fixture.stub) Fixture.job
             [SetStop; Step 0 i; SetStop; Step 1 i; Step 0 i; Step 0 i]
             Fixture.scoring_session in
  workers s = [Exited; Exited] ∧
  storage (shared s) !! "art-87-m5o2s123456789.png" = Some Fixture.qrcode ∧
  stop_event (shared s) = true.
Proof. cbv zeta. split_and!; reflexivity. Qed.

(** The claim C3 as the specification words it fails on an error page, on a
    page without the marker and on a transport failure: the worker does not
    return to sampling, it ends in the exception, whatever happens next. *)
Lemma render_failure_not_resampled :
  let j := Fixture.job in
  let s := Fixture.rendering_session in
  let after r :=
    session_step (H := Fixture.stub) j s (Step 0 (mkInput Fixture.params r)) in
  (workers (after Fixture.error_reply) !! 0 = Some (Raised ValueError) ∧
   ∀ es, workers (run (H := Fixture.stub) j es (after Fixture.error_reply))
           !! 0 ≠ Some Sampling) ∧
  (workers (after Fixture.unmarked_reply) !! 0 = Some (Raised AssertionError) ∧
   ∀ es, workers (run (H := Fixture.stub) j es (after Fixture.unmarked_reply))
           !! 0 ≠ Some Sampling) ∧
  (workers (after TransportFailure) !! 0 = Some (Raised ConnectionError) ∧
   ∀ es, workers (run (H := Fixture.stub) j es (after TransportFailure))
           !! 0 ≠ Some Sampling).
Proof.
  cbv zeta. split_and!; try reflexivity; intros es;
    erewrite (raised_absorbing (H := Fixture.stub)); try reflexivity; done.
Qed.

(** The statement of C3, amended, at [Fixture.rendering_session] and the
    error page. *)
Lemma render_failure_ends_worker_witness :
  let j := Fixture.job in
  let s := Fixture.rendering_session in
  let i := mkInput Fixture.params Fixture.error_reply in
  let s' := session_step (H := Fixture.stub) j s (Step 0 i) in
  workers s' !! 0 = Some (Raised ValueError) ∧
  (∀ es, workers (run (H := Fixture.stub) j es s') !! 0
         = Some (Raised ValueError)) ∧
  shared s' = shared s ∧
  (∀ k', k' ≠ 0 → workers s' !! k' = workers s !! k') ∧
  (∀ status status' content,
     render (H := Fixture.stub) (Response status content)
     = render (H := Fixture.stub) (Response status' content)).
Proof.
  apply (render_failure_ends_worker (H := Fixture.stub) Fixture.job
           Fixture.rendering_session 0
           (mkInput Fixture.params Fixture.error_reply) Fixture.params
           "https://research.swtch.com/qr/draw" ValueError).
  - reflexivity.
  - apply rf_no_payload. vm_compute. lia.
Defined.

(** ** File names *)

Lemma chars_app s1 s2 : chars (s1 +:+ s2) = chars s1 ++ chars s2.
Proof. induction s1 as [|c s1 IH]; simpl; [done|]. by rewrite <- IH. Qed.

Lemma chars_inj s1 s2 : chars s1 = chars s2 → s1 = s2.
Proof.
  revert s2. induction s1 as [|c s1 IH]; intros [|d s2]; simpl; try done.
  intros [= -> Heq]. f_equal. by apply IH.
Qed.

Lemma pretty_N_char_digit x : is_digit (pretty_N_char x).
Proof.
  unfold is_digit, pretty_N_char.
  repeat case_match; decide_it.
Qed.

Lemma pretty_N_go_chars x s c :
  c ∈ chars (pretty_N_go x s) → c ∈ chars s ∨ is_digit c.
Proof.
  revert s. induction (N.lt_wf_0 x) as [x _ IH]; intros s.
  destruct (decide (x = 0)%N) as [->|Hx].
  - rewrite pretty_N_go_0. by left.
  - rewrite pretty_N_go_step by lia. intros Hc.
    apply IH in Hc; [|apply N.div_lt; lia].
    destruct Hc as [Hc|Hc]; [|by right].
    simpl in Hc. apply elem_of_cons in Hc as [->|Hc]; [|by left].
    right. apply pretty_N_char_digit.
Qed.

(** [str(n)] is made of digits. *)
Lemma str_digits n c : c ∈ chars (Py.str n) → is_digit c.
Proof.
  unfold Py.str, pretty, pretty_N. case_decide.
  - simpl. intros ->%list_elem_of_singleton. unfold is_digit. decide_it.
  - intros [Hc|Hc]%pretty_N_go_chars; [|done].
    simpl in Hc. by apply elem_of_nil in Hc.
Qed.

Lemma str_inj n m : Py.str n = Py.str m → n = m.
Proof. apply pretty_N_inj. Qed.

Lemma not_digit_sep c n :
  c ∉ chars "0123456789" → c ∉ chars (Py.str n).
Proof. intros Hc Hin. apply Hc. by eapply str_digits. Qed.

(** A list is cut in one way only at the last occurrence of [c]. *)
Lemma app_sep_inj {A} (c : A) (a1 a2 d1 d2 : list A) :
  c ∉ d1 → c ∉ d2 → a1 ++ c :: d1 = a2 ++ c :: d2 → a1 = a2 ∧ d1 = d2.
Proof.
  revert a2. induction a1 as [|x a1 IH]; intros [|y a2] H1 H2; simpl.
  - by intros [= ->].
  - intros [= <- ->]. exfalso. apply H1. apply elem_of_app. right. left.
  - intros [= -> <-]. exfalso. apply H2. apply elem_of_app. right. left.
  - intros [= -> Heq]. destruct (IH a2 H1 H2 Heq) as [-> ->]. done.
Qed.

(** A file name is read back from its end: the seed after the last [s],
    the orientation after the last [o] before it, the mask after the last
    [m], the score after the last dash, and what is left is the name. *)
Lemma parse_fields (N1 N2 S1 S2 M1 M2 O1 O2 D1 D2 : list ascii) :
  "-"%char ∉ S1 → "-"%char ∉ S2 → "m"%char ∉ M1 → "m"%char ∉ M2 →
  "o"%char ∉ O1 → "o"%char ∉ O2 → "s"%char ∉ D1 → "s"%char ∉ D2 →
  N1 ++ "-"%char :: S1 ++ "-"%char :: "m"%char :: M1 ++ "o"%char :: O1
     ++ "s"%char :: D1 ++ chars ".png"
  = N2 ++ "-"%char :: S2 ++ "-"%char :: "m"%char :: M2 ++ "o"%char :: O2
       ++ "s"%char :: D2 ++ chars ".png" →
  N1 = N2 ∧ S1 = S2 ∧ M1 = M2 ∧ O1 = O2 ∧ D1 = D2.
Proof.
  intros HS1 HS2 HM1 HM2 HO1 HO2 HD1 HD2 Heq.
  destruct (app_sep_inj "s"%char
              (N1 ++ "-"%char :: S1 ++ "-"%char :: "m"%char :: M1
                  ++ "o"%char :: O1)
              (N2 ++ "-"%char :: S2 ++ "-"%char :: "m"%char :: M2
                  ++ "o"%char :: O2)
              (D1 ++ chars ".png") (D2 ++ chars ".png")) as [Heq1 HD].
  { rewrite not_elem_of_app. split; [done|]. decide_it. }
  { rewrite not_elem_of_app. split; [done|]. decide_it. }
  { renest. exact Heq. }
  apply app_inv_tail in HD as ->.
  destruct (app_sep_inj "o"%char
              (N1 ++ "-"%char :: S1 ++ "-"%char :: "m"%char :: M1)
              (N2 ++ "-"%char :: S2 ++ "-"%char :: "m"%char :: M2)
              O1 O2 HO1 HO2) as [Heq2 ->].
  { renest. exact Heq1. }
  destruct (app_sep_inj "m"%char
              (N1 ++ "-"%char :: S1 ++ ["-"%char])
              (N2 ++ "-"%char :: S2 ++ ["-"%char])
              M1 M2 HM1 HM2) as [Heq3 ->].
  { renest. exact Heq2. }
  assert ((N1 ++ "-"%char :: S1) ++ ["-"%char]
          = (N2 ++ "-"%char :: S2) ++ ["-"%char]) as Heq4.
  { renest. exact Heq3. }
  apply app_inv_tail in Heq4.
  destruct (app_sep_inj "-"%char N1 N2 S1 S2 HS1 HS2 Heq4) as [-> ->].
  done.
Qed.

(** The file name determines the session name, the score and the draw. *)
Lemma filename_inj name1 score1 p1 name2 score2 p2 :
  filename name1 score1 p1 = filename name2 score2 p2 →
  name1 = name2 ∧ score1 = score2 ∧ p1 = p2.
Proof.
  intros Heq. apply (f_equal chars) in Heq. unfold filename in Heq.
  rewrite !chars_app in Heq.
  destruct p1 as [m1 o1 s1], p2 as [m2 o2 s2].
  destruct (parse_fields (chars name1) (chars name2)
              (chars (Py.str (N.of_nat score1)))
              (chars (Py.str (N.of_nat score2)))
              (chars (Py.str m1)) (chars (Py.str m2))
              (chars (Py.str o1)) (chars (Py.str o2))
              (chars (Py.str s1)) (chars (Py.str s2)))
    as (Hn & Hs & Hm & Ho & Hd);
    try (apply not_digit_sep; decide_it).
  { exact Heq. }
  apply chars_inj in Hn, Hs, Hm, Ho, Hd.
  apply str_inj in Hs, Hm, Ho, Hd.
  split; [done|]. split; [lia|]. simpl in *. congruence.
Qed.

Section naming.
Context `{External}.

(** C9.  The worker saves a result under [filename], a function of the
    session name, the score and the draw.  Two different draws never give
    the same file name, whatever the names and the scores; so when a worker
    saves a second result of another draw, both files are there, each with
    its own candidate. *)
Theorem persisted_names_injective (j : job) (i1 i2 : input)
  (p1 p2 : SearchParameters) (canvas1 canvas2 : Image) (score1 score2 : nat)
  (w : world) :
  p1 ≠ p2 →
  (∀ name1 name2, filename name1 score1 p1 ≠ filename name2 score2 p2) ∧
  let w1 := (worker_step j i1 (Persisting p1 canvas1 score1) w).2 in
  let w2 := (worker_step j i2 (Persisting p2 canvas2 score2) w1).2 in
  storage w1 = <[filename (name j) score1 p1 := canvas1]> (storage w) ∧
  storage w2 !! filename (name j) score1 p1 = Some canvas1 ∧
  storage w2 !! filename (name j) score2 p2 = Some canvas2.
Proof.
  intros Hne.
  assert (∀ name1 name2,
            filename name1 score1 p1 ≠ filename name2 score2 p2) as Hfn.
  { intros name1 name2 Heq. apply filename_inj in Heq as (_ & _ & Hp). done. }
  split; [done|]. cbv zeta. unfold worker_step. cbn [snd storage].
  split_and!.
  - done.
  - rewrite lookup_insert_ne by apply not_eq_sym, Hfn. apply lookup_insert_eq.
  - apply lookup_insert_eq.
Qed.

End naming.

(** The statement of C9 at two draws that differ in the last digit of the
    seed. *)
Lemma persisted_names_injective_witness :
  let j := Fixture.job in
  let i := mkInput Fixture.params Fixture.error_reply in
  let p1 := Fixture.params in
  let p2 := Fixture.other_params in
  let w := Fixture.world0 in
  (∀ name1 name2, filename name1 87 p1 ≠ filename name2 87 p2) ∧
  let w1 := (worker_step (H := Fixture.stub) j i
               (Persisting p1 Fixture.qrcode 87) w).2 in
  let w2 := (worker_step (H := Fixture.stub) j i
               (Persisting p2 Fixture.qrcode 87) w1).2 in
  storage w1 = <[filename (name j) 87 p1 := Fixture.qrcode]> (storage w) ∧
  storage w2 !! filename (name j) 87 p1 = Some Fixture.qrcode ∧
  storage w2 !! filename (name j) 87 p2 = Some Fixture.qrcode.
Proof.
  apply (persisted_names_injective (H := Fixture.stub) Fixture.job
           (mkInput Fixture.params Fixture.error_reply)
           (mkInput Fixture.params Fixture.error_reply)
           Fixture.params Fixture.other_params
           Fixture.qrcode Fixture.qrcode 87 87 Fixture.world0).
  discriminate.
Defined.

Example filename_sample :
  filename "art" 96 (mkParams 7 3 4294967295) = "art-96-m7o3s4294967295.png".
Proof. by vm_compute. Qed.

(** ** The command line *)

Lemma append_cons c s t : String c s +:+ t = String c (s +:+ t).
Proof. reflexivity. Qed.

Lemma take_drop_chars n s : Py.take_chars n s +:+ Py.drop_chars n s = s.
Proof.
  revert s. induction n as [|n IH]; intros [|c s]; simpl; try done.
  by rewrite append_cons, IH.
Qed.

Lemma append_empty_r s : s +:+ "" = s.
Proof. induction s as [|c s IH]; [done|]. by rewrite append_cons, IH. Qed.

Lemma splitext_scan_Some p dot idxs r :
  Py.splitext_scan p dot idxs = Some r →
  r = (Py.take_chars dot p, Py.drop_chars dot p).
Proof.
  induction idxs as [|i idxs IH]; simpl; [done|].
  case_decide; [by intros [= <-]|done].
Qed.

(** [splitext] cuts its argument in two. *)
Lemma splitext_app p : (Py.splitext p).1 +:+ (Py.splitext p).2 = p.
Proof.
  unfold Py.splitext. cbv zeta. case_decide.
  - destruct (Py.splitext_scan _ _ _) as [r|] eqn:Hscan.
    + apply splitext_scan_Some in Hscan as ->. simpl. apply take_drop_chars.
    + simpl. apply append_empty_r.
  - simpl. apply append_empty_r.
Qed.

Lemma lower_char_cases (c d : ascii) :
  Py.lower_char c = d →
  c = d ∨ (nat_of_ascii c + 32 = nat_of_ascii d ∧ 65 ≤ nat_of_ascii c ≤ 90).
Proof.
  unfold Py.lower_char. case_decide; [|by left].
  intros <-. right. split; [|done].
  rewrite nat_ascii_embedding; lia.
Qed.

Lemma lower_char_is (c d u : ascii) :
  nat_of_ascii u + 32 = nat_of_ascii d →
  Py.lower_char c = d → c = d ∨ c = u.
Proof.
  intros Hu Hc. apply lower_char_cases in Hc as [->|[Hc _]]; [by left|].
  right. rewrite <- (ascii_nat_embedding c), <- (ascii_nat_embedding u).
  f_equal. lia.
Qed.

Lemma lower_char_dot c : Py.lower_char c = "."%char → c = "."%char.
Proof.
  intros Hc. apply lower_char_cases in Hc as [->|[Hc Hr]]; [done|].
  change (nat_of_ascii ".") with 46 in Hc. lia.
Qed.

(** The extensions the test of line 206 lets through. *)
Lemma lower_png_iff s : Py.lower s = ".png" ↔ s ∈ png_spellings.
Proof.
  split.
  - destruct s as [|c0 [|c1 [|c2 [|c3 [|c4 s]]]]]; simpl; try done.
    intros [= H0 H1 H2 H3].
    apply lower_char_dot in H0 as ->.
    apply (lower_char_is _ _ "P"%char) in H1 as [->| ->]; [| |done];
    apply (lower_char_is _ _ "N"%char) in H2 as [->| ->]; try done;
    apply (lower_char_is _ _ "G"%char) in H3 as [->| ->]; try done;
    decide_it.
  - unfold png_spellings. intros Hs.
    repeat (apply elem_of_cons in Hs as [->|Hs]; [by vm_compute|]).
    by apply elem_of_nil in Hs.
Qed.

(** C10.  The entry point splits the base name of the design path into a
    name and an extension.  Unless the extension is [.png] in some mix of
    cases, it raises [AssertionError], whatever the file holds, and no
    session starts; otherwise it runs [main] with the name, the base name
    less its extension, as the session name, and every file the session
    saves starts with it. *)
Theorem entry_requires_png (path : string) (design : Image) (href : string)
  (concurrency : nat) (stop_if_found : bool) (r : post_reply)
  (cwd : gmap string Image) :
  let stem := (Py.splitext (Py.basename path)).1 in
  let png := (Py.splitext (Py.basename path)).2 in
  let started := entry path design href concurrency stop_if_found r cwd in
  stem +:+ png = Py.basename path ∧
  (Py.lower png = ".png" ↔ png ∈ png_spellings) ∧
  (Py.lower png ≠ ".png" → started = Raise AssertionError) ∧
  (Py.lower png = ".png" →
     started = main stem design href concurrency stop_if_found r cwd) ∧
  (∀ j s, started = Ok (j, s) →
     Py.lower png = ".png" ∧ name j = stem ∧
     ∀ score p, ∃ rest, filename (name j) score p = stem +:+ rest).
Proof.
  intros stem png started.
  assert (started = if decide (Py.lower png = ".png")
                    then main stem design href concurrency stop_if_found r cwd
                    else Raise AssertionError) as Hstarted.
  { subst started stem png. unfold entry.
    by destruct (Py.splitext (Py.basename path)). }
  split_and!.
  - apply splitext_app.
  - apply lower_png_iff.
  - intros Hne. by rewrite Hstarted, decide_False.
  - intros Heq. by rewrite Hstarted, decide_True.
  - intros j s. rewrite Hstarted. case_decide; [|done]. intros Hmain.
    split; [done|]. unfold main in Hmain.
    destruct (split_design design) as [[d n]|]; [|done]. simpl in Hmain.
    destruct (upload_image r); [|done]. simpl in Hmain.
    injection Hmain as <- _. simpl. split; [done|].
    intros score p. by eexists.
Qed.

(** A design named in upper case starts a session called [art]; the same
    design under the extension [.jpg] does not start one. *)
Example entry_samples :
  let reply := mkPostReply 302 (Some "abc123") in
  match entry "designs/art.PNG" Fixture.design "https://example.com/" 2
          false reply ∅ with
  | Ok (j, s) => Some (name j, workers s, stop_event (shared s))
  | Raise _ => None
  end = Some ("art", [Sampling; Sampling], false) ∧
  entry "designs/art.jpg" Fixture.design "https://example.com/" 2
    false reply ∅ = Raise AssertionError ∧
  entry "designs/png" Fixture.design "https://example.com/" 2
    false reply ∅ = Raise AssertionError.
Proof. cbv zeta. split_and!; by vm_compute. Qed.

(** * Further properties *)

(** ** More of the splitter *)

Lemma px_out_of_range im x y :
  shape_ok im → ¬ (x < width im ∧ y < height im) → px im x y = None.
Proof.
  intros Hshape Hout. destruct (px im x y) as [p|] eqn:Hp; [|done].
  by apply px_Some_range in Hp.
Qed.

(** Two well-shaped rasters with the same mode, size and pixels are equal. *)
Lemma image_ext (a b : Image) :
  shape_ok a → shape_ok b → mode a = mode b → size a = size b →
  (∀ x y, x < width a → y < height a → px a x y = px b x y) → a = b.
Proof.
  intros Ha Hb Hm Hs Hin.
  assert (∀ x y, px a x y = px b x y) as Hpx.
  { intros x y. injection Hs as Hw Hh.
    destruct (decide (x < width a ∧ y < height a)) as [[Hx Hy]|Hout].
    - by apply Hin.
    - rewrite (px_out_of_range a) by done.
      rewrite (px_out_of_range b); [done|done|]. by rewrite <- Hw, <- Hh. }
  clear Hin. destruct a as [ma wa ha da], b as [mb wb hb db].
  destruct Ha as [Hah Haw], Hb as [Hbh Hbw]. injection Hs as Hw Hh.
  simpl in *.
  assert (da = db) as ->; [|by subst].
  apply list_eq. intros y.
  destruct (da !! y) as [ra|] eqn:Hra, (db !! y) as [rb|] eqn:Hrb.
  - f_equal. apply list_eq. intros x.
    specialize (Hpx x y). unfold px in Hpx. simpl in Hpx.
    by rewrite Hra, Hrb in Hpx.
  - apply lookup_lt_Some in Hra. apply lookup_ge_None in Hrb. lia.
  - apply lookup_lt_Some in Hrb. apply lookup_ge_None in Hra. lia.
  - done.
Qed.

Lemma desired_px_no_marker p :
  desired_px p ≠ NECESSARY_BLACK ∧ desired_px p ≠ NECESSARY_WHITE.
Proof. unfold desired_px. repeat case_decide; split; congruence || done. Qed.

Lemma desired_px_idem p : desired_px (desired_px p) = desired_px p.
Proof.
  destruct (desired_px_no_marker p) as [Hb Hw].
  unfold desired_px at 1. by rewrite !decide_False.
Qed.

Lemma necessary_px_desired p : necessary_px (desired_px p) = (0, 0, 0, 0)%Z.
Proof.
  destruct (desired_px_no_marker p) as [Hb Hw].
  unfold necessary_px. by rewrite !decide_False.
Qed.

(** X1.  The desired overlay of a 41 by 41 RGBA design holds no marker
    colour: every necessary-black or necessary-white pixel was replaced. *)
Theorem desired_has_no_marker (design : Image) :
  mode design = "RGBA" → size design = QRCODE_SIZE → shape_ok design →
  ∃ desired necessary,
    split_design design = Ok (desired, necessary) ∧
    ∀ x y q, px desired x y = Some q →
      q ≠ NECESSARY_BLACK ∧ q ≠ NECESSARY_WHITE.
Proof.
  intros Hmode Hsize Hshape.
  destruct (split_design_run design Hmode Hsize Hshape)
    as (D & N & Hrun & HDshape & _ & HDs & _ & _ & _ & Hpx).
  exists D, N. split; [done|]. intros x y q Hq.
  destruct (px_Some_range D x y q HDshape Hq) as [Hx Hy].
  injection HDs as HDw HDh. injection Hsize as Hw Hh.
  destruct (px_in_range design x y Hshape) as [p Hp]; [lia..|].
  destruct (Hpx x y p Hp) as [HD _].
  assert (q = desired_px p) as -> by congruence.
  apply desired_px_no_marker.
Qed.

(** The statement of X1 at [Fixture.design]. *)
Lemma desired_has_no_marker_witness :
  ∃ desired necessary,
    split_design Fixture.design = Ok (desired, necessary) ∧
    ∀ x y q, px desired x y = Some q →
      q ≠ NECESSARY_BLACK ∧ q ≠ NECESSARY_WHITE.
Proof.
  exact (desired_has_no_marker Fixture.design eq_refl eq_refl
           fixture_design_shape).
Defined.

(** X2.  Every pixel of the necessary overlay is fully transparent, or is
    opaque and equal to the pixel of the desired overlay at that position. *)
Theorem overlays_agree (design : Image) :
  mode design = "RGBA" → size design = QRCODE_SIZE → shape_ok design →
  ∃ desired necessary,
    split_design design = Ok (desired, necessary) ∧
    ∀ x y q, px necessary x y = Some q →
      q = (0, 0, 0, 0)%Z ∨ (alpha q = 255%Z ∧ px desired x y = Some q).
Proof.
  intros Hmode Hsize Hshape.
  destruct (split_design_run design Hmode Hsize Hshape)
    as (D & N & Hrun & _ & HNshape & _ & HNs & _ & _ & Hpx).
  exists D, N. split; [done|]. intros x y q Hq.
  destruct (px_Some_range N x y q HNshape Hq) as [Hx Hy].
  injection HNs as HNw HNh. injection Hsize as Hw Hh.
  destruct (px_in_range design x y Hshape) as [p Hp]; [lia..|].
  destruct (Hpx x y p Hp) as [HD HN].
  assert (q = necessary_px p) as -> by congruence.
  rewrite HD. unfold necessary_px, desired_px.
  repeat case_decide; auto.
Qed.

(** The statement of X2 at [Fixture.design]. *)
Lemma overlays_agree_witness :
  ∃ desired necessary,
    split_design Fixture.design = Ok (desired, necessary) ∧
    ∀ x y q, px necessary x y = Some q →
      q = (0, 0, 0, 0)%Z ∨ (alpha q = 255%Z ∧ px desired x y = Some q).
Proof.
  exact (overlays_agree Fixture.design eq_refl eq_refl fixture_design_shape).
Defined.

(** X3.  Splitting the desired overlay of a design again returns the same
    desired overlay, and a necessary overlay that is fully transparent. *)
Theorem split_design_idempotent (design : Image) :
  mode design = "RGBA" → size design = QRCODE_SIZE → shape_ok design →
  ∃ desired necessary,
    split_design design = Ok (desired, necessary) ∧
    split_design desired
    = Ok (desired, new "RGBA" QRCODE_SIZE (0, 0, 0, 0)%Z).
Proof.
  intros Hmode Hsize Hshape.
  destruct (split_design_run design Hmode Hsize Hshape)
    as (D & N & Hrun & HDshape & _ & HDs & _ & HDm & _ & Hpx).
  exists D, N. split; [done|].
  destruct (split_design_run D HDm HDs HDshape)
    as (D2 & N2 & Hrun2 & HD2shape & HN2shape & HD2s & HN2s & HD2m & HN2m
        & Hpx2).
  rewrite Hrun2. f_equal.
  assert (∀ x y q, px D x y = Some q → ∃ p, q = desired_px p) as Hq.
  { intros x y q Hq.
    destruct (px_Some_range D x y q HDshape Hq) as [Hx Hy].
    injection HDs as HDw HDh. injection Hsize as Hw Hh.
    destruct (px_in_range design x y Hshape) as [p Hp]; [lia..|].
    destruct (Hpx x y p Hp) as [HD _]. exists p. congruence. }
  injection HDs as HDw HDh.
  f_equal.
  - apply image_ext; try done;
      [congruence | unfold size; rewrite HDw, HDh; exact HD2s |].
    intros x y Hx Hy.
    destruct (px_in_range D2 x y HD2shape Hx Hy) as [q2 Hq2].
    rewrite Hq2. injection HD2s as HD2w HD2h.
    destruct (px_in_range D x y HDshape) as [q HDq]; [lia..|].
    destruct (Hpx2 x y q HDq) as [HD2 _].
    destruct (Hq x y q HDq) as [p ->]. rewrite desired_px_idem in HD2.
    congruence.
  - apply image_ext; try done; [apply new_shape_ok|].
    intros x y Hx Hy. injection HN2s as HN2w HN2h.
    destruct (px_in_range D x y HDshape) as [q HDq]; [lia..|].
    destruct (Hpx2 x y q HDq) as [_ ->].
    destruct (Hq x y q HDq) as [p ->]. rewrite necessary_px_desired.
    rewrite px_new; [done|simpl; lia..].
Qed.

(** The statement of X3 at [Fixture.design]. *)
Lemma split_design_idempotent_witness :
  ∃ desired necessary,
    split_design Fixture.design = Ok (desired, necessary) ∧
    split_design desired
    = Ok (desired, new "RGBA" QRCODE_SIZE (0, 0, 0, 0)%Z).
Proof.
  exact (split_design_idempotent Fixture.design eq_refl eq_refl
           fixture_design_shape).
Defined.

(** ** More of the compositor and the scorer *)

Section more_scorer.
Context `{External}.

Lemma filter_length_le {A} (f : A → bool) l :
  length (List.filter f l) ≤ length l.
Proof. induction l as [|x l IH]; simpl; [done|]. destruct (f x); simpl; lia. Qed.

(** The two ways [eval_qrcode] can end. *)
Lemma eval_qrcode_cases (qrcode : Image) :
  (size qrcode = candidate_size ∧
   ∃ n calls, n ≤ 95 ∧ length calls = 95 ∧
     eval_qrcode qrcode = Ok (1 + n, calls)) ∨
  (size qrcode ≠ candidate_size ∧
   eval_qrcode qrcode = Raise AssertionError).
Proof.
  destruct (decide (size qrcode = candidate_size)) as [Hs|Hs].
  - left. split; [exact Hs|].
    exists (length (List.filter (passes (expand qrcode)) (seq 1 95))),
           (map (trial (expand qrcode)) (seq 1 95)).
    split; [|split].
    + etrans; [apply filter_length_le|]. by rewrite length_seq.
    + by rewrite length_map, length_seq.
    + exact (eval_qrcode_total qrcode Hs).
  - right. split; [exact Hs|]. unfold eval_qrcode.
    destruct (decide (width qrcode = QRCODE_SIZE.1 + QART_MARGIN * 2))
      as [Hw|Hw]; [|reflexivity].
    destruct (decide (height qrcode = QRCODE_SIZE.2 + QART_MARGIN * 2))
      as [Hh|Hh]; [|reflexivity].
    exfalso. apply Hs. unfold size. rewrite Hw, Hh. reflexivity.
Qed.

(** X4.  For a 49 by 49 RGBA render of 8-bit pixels, the candidate holds,
    at the position of every marker pixel of the design shifted by the
    margin, opaque black or white as the marker says, and at every other
    position the render's pixel. *)
Theorem composite_pixels (design qrcode : Image) :
  mode design = "RGBA" → size design = QRCODE_SIZE → shape_ok design →
  mode qrcode = "RGBA" → size qrcode = candidate_size → shape_ok qrcode →
  byte_valued qrcode →
  ∃ desired necessary,
    split_design design = Ok (desired, necessary) ∧
    ∀ x y, x < 49 → y < 49 →
      px (composite qrcode necessary) x y =
      if decide (4 ≤ x < 45 ∧ 4 ≤ y < 45) then
        match px design (x - 4) (y - 4) with
        | Some p =>
            if decide (p = NECESSARY_BLACK ∨ p = NECESSARY_WHITE)
            then Some (necessary_px p) else px qrcode x y
        | None => None
        end
      else px qrcode x y.
Proof.
  intros Hmode Hsize Hshape Hqm Hqs Hqshape Hqb.
  destruct (split_design_run design Hmode Hsize Hshape)
    as (D & N & Hrun & _ & HNshape & _ & HNs & _ & _ & Hpx).
  exists D, N. split; [exact Hrun|]. intros x y Hx Hy.
  injection Hqs as Hqw Hqh. injection HNs as HNw HNh.
  injection Hsize as Hw Hh.
  change (QRCODE_SIZE.1 + QART_MARGIN * 2) with 49 in Hqw.
  change (QRCODE_SIZE.2 + QART_MARGIN * 2) with 49 in Hqh.
  destruct (px_in_range qrcode x y Hqshape) as [s Hs]; [lia..|].
  assert (byte_px s) as Hbs.
  { unfold px in Hs. destruct (data qrcode !! y) as [row|] eqn:Hrow; [|done].
    exact (Forall_lookup_1 _ _ _ _ (Forall_lookup_1 _ _ _ _ Hqb Hrow) Hs). }
  unfold composite. rewrite px_paste.
  assert (paste_source (new "RGBA" candidate_size (0, 0, 0, 0)%Z) qrcode
          = qrcode) as ->.
  { unfold paste_source. rewrite decide_True; [done|]. by rewrite Hqm. }
  rewrite px_paste.
  rewrite px_new by (unfold candidate_size; simpl; lia).
  unfold fmap, option_fmap, option_map.
  assert (pasted qrcode (0, 0) None x y (0, 0, 0, 0)%Z = s) as ->.
  { unfold pasted, fst, snd. rewrite Hqw, Hqh.
    rewrite decide_True by lia. rewrite !Nat.sub_0_r. by rewrite Hs. }
  unfold pasted, fst, snd. rewrite HNw, HNh.
  change QART_MARGIN with 4.
  destruct (decide (4 ≤ x < 45 ∧ 4 ≤ y < 45)) as [Hin|Hout].
  - rewrite decide_True by lia.
    destruct (px_in_range design (x - 4) (y - 4) Hshape) as [p Hp]; [lia..|].
    destruct (Hpx _ _ p Hp) as [_ HN]. rewrite HN, Hp.
    unfold necessary_px, desired_px.
    destruct (decide (p = NECESSARY_BLACK)) as [Hb|Hb].
    + rewrite decide_True by auto.
      change (alpha (0, 0, 0, 255)%Z) with 255%Z.
      rewrite blend_px_255; [done|]. simpl. lia.
    + destruct (decide (p = NECESSARY_WHITE)) as [Hw'|Hw'].
      * rewrite decide_True by auto.
        change (alpha (255, 255, 255, 255)%Z) with 255%Z.
        rewrite blend_px_255; [done|]. simpl. lia.
      * rewrite decide_False by tauto.
        change (alpha (0, 0, 0, 0)%Z) with 0%Z.
        by rewrite blend_px_0.
  - rewrite decide_False; [done|lia].
Qed.

(** X5.  Whatever the render and the overlay, the compositor's canvas is a
    49 by 49 RGBA raster, so the size assertions of [eval_qrcode] never
    fail on it and it is scored. *)
Theorem composite_always_scored (qrcode necessary : Image) :
  size (composite qrcode necessary) = (49, 49) ∧
  mode (composite qrcode necessary) = "RGBA" ∧
  ∃ score calls,
    eval_qrcode (composite qrcode necessary) = Ok (score, calls).
Proof.
  split; [reflexivity|]. split; [reflexivity|].
  destruct (eval_qrcode_cases (composite qrcode necessary))
    as [[_ (n & calls & _ & _ & Hok)]|[Hs _]].
  - by exists (1 + n), calls.
  - exfalso. apply Hs. reflexivity.
Qed.


(** X7.  A score [eval_qrcode] returns is between 1 and 96, comes with 95
    decoder calls, and is only returned for a 49 by 49 raster. *)
Theorem eval_qrcode_bounds (qrcode : Image) (score : nat)
  (calls : list Image) :
  eval_qrcode qrcode = Ok (score, calls) →
  1 ≤ score ≤ 96 ∧ length calls = 95 ∧ size qrcode = candidate_size.
Proof.
  destruct (eval_qrcode_cases qrcode)
    as [[Hs (n & calls' & Hn & Hlen & Hok)]|[Hs Hr]].
  - rewrite Hok. intros [= <- <-]. split; [lia|]. by split.
  - rewrite Hr. discriminate.
Qed.

(** X8.  In the padded raster, an opaque pixel of the scaled candidate is
    copied as it is, and under a fully transparent one the canvas stays
    transparent. *)
Theorem expand_keeps_opaque (qrcode : Image) (x y : nat) (s : pixel) :
  resize_contract → size qrcode = candidate_size →
  px (resize qrcode (490, 490)) x y = Some s → x < 490 → y < 490 →
  byte_px s →
  (alpha s = 255%Z → px (expand qrcode) (245 + x) (245 + y) = Some s) ∧
  (alpha s = 0%Z →
   px (expand qrcode) (245 + x) (245 + y) = Some (0, 0, 0, 0)%Z).
Proof.
  intros Hr Hsz Hs Hx Hy Hb.
  destruct (expand_facts qrcode Hr Hsz) as (_ & _ & _ & Hin).
  rewrite (Hin x y s Hs Hx Hy). split; intros ->.
  - by rewrite blend_px_255.
  - rewrite blend_px_0; [done|]. simpl. lia.
Qed.

End more_scorer.

Lemma sample_render_shape : shape_ok Sample.render.
Proof. apply new_shape_ok. Qed.

Lemma sample_render_bytes : byte_valued Sample.render.
Proof. apply new_byte_valued. simpl. lia. Qed.

(** The statement of X4 at [Fixture.design] and [Sample.render]. *)
Lemma composite_pixels_witness :
  ∃ desired necessary,
    split_design Fixture.design = Ok (desired, necessary) ∧
    ∀ x y, x < 49 → y < 49 →
      px (composite (H := Fixture.stub) Sample.render necessary) x y =
      if decide (4 ≤ x < 45 ∧ 4 ≤ y < 45) then
        match px Fixture.design (x - 4) (y - 4) with
        | Some p =>
            if decide (p = NECESSARY_BLACK ∨ p = NECESSARY_WHITE)
            then Some (necessary_px p) else px Sample.render x y
        | None => None
        end
      else px Sample.render x y.
Proof.
  exact (composite_pixels (H := Fixture.stub) Fixture.design Sample.render
           eq_refl eq_refl fixture_design_shape eq_refl eq_refl
           sample_render_shape sample_render_bytes).
Defined.

(** The statement of X7 at the score of [Fixture.qrcode]. *)
Lemma eval_qrcode_bounds_witness :
  1 ≤ 87 ≤ 96 ∧
  length (map (trial (H := Fixture.stub)
                 (expand (H := Fixture.stub) Fixture.qrcode)) (seq 1 95))
  = 95 ∧
  size Fixture.qrcode = candidate_size.
Proof.
  apply (eval_qrcode_bounds (H := Fixture.stub) Fixture.qrcode 87
           (map (trial (H := Fixture.stub)
                   (expand (H := Fixture.stub) Fixture.qrcode)) (seq 1 95))).
  rewrite (eval_qrcode_total (H := Fixture.stub)) by reflexivity.
  reflexivity.
Defined.

(** The statement of X8 at the corner pixel of [Fixture.qrcode]. *)
Lemma expand_keeps_opaque_witness :
  (alpha (0, 0, 0, 255)%Z = 255%Z →
   px (expand (H := Fixture.stub) Fixture.qrcode) (245 + 0) (245 + 0)
   = Some (0, 0, 0, 255)%Z) ∧
  (alpha (0, 0, 0, 255)%Z = 0%Z →
   px (expand (H := Fixture.stub) Fixture.qrcode) (245 + 0) (245 + 0)
   = Some (0, 0, 0, 0)%Z).
Proof.
  apply (expand_keeps_opaque (H := Fixture.stub) Fixture.qrcode 0 0
           (0, 0, 0, 255)%Z).
  - exact stub_resize_contract.
  - reflexivity.
  - reflexivity.
  - lia.
  - lia.
  - simpl. lia.
Defined.


(** ** More of the renderer *)


Section more_render.
Context `{External}.



End more_render.


(** The end of a request URL is read back like a file name: the seed after
    the last [=], the orientation after the one before, the mask after the
    one before that. *)
Lemma parse_query (P1 P2 M1 M2 O1 O2 D1 D2 : list ascii) :
  "="%char ∉ M1 → "="%char ∉ M2 → "="%char ∉ O1 → "="%char ∉ O2 →
  "="%char ∉ D1 → "="%char ∉ D2 →
  P1 ++ "m"%char :: "="%char :: M1 ++ "&"%char :: "o"%char :: "="%char
     :: O1 ++ "&"%char :: "s"%char :: "="%char :: D1
  = P2 ++ "m"%char :: "="%char :: M2 ++ "&"%char :: "o"%char :: "="%char
       :: O2 ++ "&"%char :: "s"%char :: "="%char :: D2 →
  P1 = P2 ∧ M1 = M2 ∧ O1 = O2 ∧ D1 = D2.
Proof.
  intros HM1 HM2 HO1 HO2 HD1 HD2 Heq.
  destruct (app_sep_inj "="%char
              (P1 ++ "m"%char :: "="%char :: M1 ++ "&"%char :: "o"%char
                  :: "="%char :: O1 ++ ["&"%char; "s"%char])
              (P2 ++ "m"%char :: "="%char :: M2 ++ "&"%char :: "o"%char
                  :: "="%char :: O2 ++ ["&"%char; "s"%char])
              D1 D2 HD1 HD2) as [Heq1 ->].
  { renest. exact Heq. }
  assert ((P1 ++ "m"%char :: "="%char :: M1 ++ "&"%char :: "o"%char
              :: "="%char :: O1) ++ ["&"%char; "s"%char]
          = (P2 ++ "m"%char :: "="%char :: M2 ++ "&"%char :: "o"%char
                :: "="%char :: O2) ++ ["&"%char; "s"%char]) as Heq1'.
  { renest. exact Heq1. }
  apply app_inv_tail in Heq1'.
  destruct (app_sep_inj "="%char
              (P1 ++ "m"%char :: "="%char :: M1 ++ ["&"%char; "o"%char])
              (P2 ++ "m"%char :: "="%char :: M2 ++ ["&"%char; "o"%char])
              O1 O2 HO1 HO2) as [Heq2 ->].
  { renest. exact Heq1'. }
  assert ((P1 ++ "m"%char :: "="%char :: M1) ++ ["&"%char; "o"%char]
          = (P2 ++ "m"%char :: "="%char :: M2) ++ ["&"%char; "o"%char])
    as Heq2'.
  { renest. exact Heq2. }
  apply app_inv_tail in Heq2'.
  destruct (app_sep_inj "="%char (P1 ++ ["m"%char]) (P2 ++ ["m"%char])
              M1 M2 HM1 HM2) as [Heq3 ->].
  { renest. exact Heq2'. }
  apply app_inv_tail in Heq3. by subst.
Qed.

Section more_url.
Context `{External}.

(** X11.  Two different draws never give the same request URL. *)
Theorem draw_url_injective (j : job) (p1 p2 : SearchParameters) :
  p1 ≠ p2 → draw_url j p1 ≠ draw_url j p2.
Proof.
  intros Hne Heq. apply Hne. clear Hne.
  apply (f_equal chars) in Heq. unfold draw_url in Heq.
  rewrite !chars_app in Heq.
  destruct p1 as [m1 o1 s1], p2 as [m2 o2 s2].
  cbn [mask orient seed] in Heq.
  set (P := chars "https://research.swtch.com/qr/draw?x=0&y=0&c=0&"
            ++ chars "i=" ++ chars (uploaded_image_id j) ++ chars "&"
            ++ chars "v=6&" ++ chars "r=1&" ++ chars "d=0&" ++ chars "t=0&"
            ++ chars "z=0&" ++ chars "u=" ++ chars (quote (href j))
            ++ chars "&").
  destruct (parse_query P P
              (chars (Py.str m1)) (chars (Py.str m2))
              (chars (Py.str o1)) (chars (Py.str o2))
              (chars (Py.str s1)) (chars (Py.str s2)))
    as (_ & Hm & Ho & Hd);
    try (apply not_digit_sep; decide_it).
  { unfold P. repeat rewrite <- app_assoc. exact Heq. }
  apply chars_inj in Hm, Ho, Hd. apply str_inj in Hm, Ho, Hd.
  by subst.
Qed.

End more_url.

(** The statement of X11 at two draws that differ in the seed. *)
Lemma draw_url_injective_witness :
  draw_url (H := Fixture.stub) Fixture.job Fixture.params
  ≠ draw_url (H := Fixture.stub) Fixture.job Fixture.other_params.
Proof.
  apply (draw_url_injective (H := Fixture.stub) Fixture.job Fixture.params
           Fixture.other_params).
  discriminate.
Defined.

(** ** More of the entry point *)

Lemma chars_take_subset c n s :
  c ∈ chars (Py.take_chars n s) → c ∈ chars s.
Proof.
  revert s. induction n as [|n IH]; intros [|d s]; simpl; try done.
  - by intros ?%elem_of_nil.
  - intros [->|Hc]%elem_of_cons; [left|right; by apply IH].
Qed.

(** What [rfind_from] finds: nothing when the character does not occur,
    and otherwise an index past which it does not occur. *)
Lemma rfind_from_spec c s i :
  match Py.rfind_from c s i with
  | None => c ∉ chars s
  | Some j => i ≤ j < i + String.length s ∧
              c ∉ chars (Py.drop_chars (S (j - i)) s)
  end.
Proof.
  revert i. induction s as [|a s IH]; intros i; simpl; [apply not_elem_of_nil|].
  specialize (IH (S i)).
  destruct (Py.rfind_from c s (S i)) as [j|].
  - destruct IH as [Hj Hc]. split; [lia|].
    replace (j - i) with (S (j - S i)) by lia. exact Hc.
  - case_decide as Hac.
    + split; [lia|]. by rewrite Nat.sub_diag.
    + apply not_elem_of_cons. by split.
Qed.

(** The base name holds no slash. *)
Lemma basename_no_slash p : "/"%char ∉ chars (Py.basename p).
Proof.
  unfold Py.basename, Py.rfind. cbv zeta.
  pose proof (rfind_from_spec "/" p 0) as Hspec.
  destruct (Py.rfind_from "/" p 0) as [j|].
  - destruct Hspec as [_ Hc]. rewrite Nat.sub_0_r in Hc.
    replace (Z.to_nat (Z.of_nat j + 1)) with (S j) by lia. exact Hc.
  - exact Hspec.
Qed.

Lemma splitext_stem_subset c p :
  c ∈ chars (Py.splitext p).1 → c ∈ chars p.
Proof.
  unfold Py.splitext. cbv zeta. case_decide; [|done].
  destruct (Py.splitext_scan _ _ _) as [r|] eqn:Hscan; [|done].
  apply splitext_scan_Some in Hscan as ->. simpl. apply chars_take_subset.
Qed.

Lemma splitext_scan_nonempty p dot idxs r :
  Py.splitext_scan p dot idxs = Some r → idxs ≠ [].
Proof. by destruct idxs. Qed.

Lemma take_chars_nonempty n s :
  0 < n → s ≠ "" → Py.take_chars n s ≠ "".
Proof. destruct n, s; simpl; try done; lia. Qed.

(** An extension is only split off a non-empty stem. *)
Lemma splitext_ext_stem p :
  (Py.splitext p).2 ≠ "" → (Py.splitext p).1 ≠ "".
Proof.
  unfold Py.splitext. cbv zeta. case_decide as Hdot; [|done].
  destruct (Py.splitext_scan _ _ _) as [r|] eqn:Hscan; [|done].
  pose proof (splitext_scan_nonempty _ _ _ _ Hscan) as Hne.
  apply splitext_scan_Some in Hscan as ->. simpl. intros _.
  assert (0 < Z.to_nat (Py.rfind "." p)).
  { destruct (Z.to_nat (Py.rfind "." p)); [|lia].
    exfalso. apply Hne. by rewrite Nat.sub_0_l. }
  apply take_chars_nonempty; [done|].
  intros ->. unfold Py.rfind in *. simpl in *. lia.
Qed.

(** X12.  [main] starts a session exactly when the design is a 41 by 41
    RGBA raster and the upload is answered 302 with an image id.  The
    session then has [concurrency] workers at the loop head, the stop event
    unset and the directory as it was, and the job carries the necessary
    overlay of the design.  With a valid design, another status raises
    AssertionError and a missing id KeyError, and no session starts. *)
Theorem main_starts_iff (session_name : string) (design : Image) (target : string)
  (concurrency : nat) (stop_first : bool) (r : post_reply)
  (cwd : gmap string Image) :
  shape_ok design →
  let started := main session_name design target concurrency stop_first r cwd in
  ((∃ j s, started = Ok (j, s)) ↔
   mode design = "RGBA" ∧ size design = QRCODE_SIZE ∧
   post_status r = 302 ∧ is_Some (location_i r)) ∧
  (∀ j s, started = Ok (j, s) →
     workers s = replicate concurrency Sampling ∧
     shared s = mkWorld false cwd [] ∧
     name j = session_name ∧ href j = target ∧
     stop_if_found j = stop_first ∧
     location_i r = Some (uploaded_image_id j) ∧
     ∃ desired, split_design design = Ok (desired, necessary j)) ∧
  (mode design = "RGBA" → size design = QRCODE_SIZE →
   post_status r ≠ 302 → started = Raise AssertionError) ∧
  (mode design = "RGBA" → size design = QRCODE_SIZE →
   post_status r = 302 → location_i r = None → started = Raise KeyError).
Proof.
  intros Hshape started. subst started. unfold main, upload_image.
  destruct (decide (mode design = "RGBA" ∧ size design = QRCODE_SIZE))
    as [[Hm Hs]|Hbad].
  - destruct (split_design_run design Hm Hs Hshape)
      as (D & N & Hrun & _).
    rewrite Hrun. simpl.
    destruct (decide (post_status r = 302)) as [H302|H302];
      destruct (location_i r) as [id|] eqn:Hloc; simpl.
    + split_and!.
      * split; [intros _; split_and!; eauto|]. intros _. by eexists _, _.
      * intros j s [= <- <-]. simpl. split_and!; try done. by exists D.
      * done.
      * done.
    + split_and!; try done.
      split; [by intros (? & ? & ?)|]. by intros (_ & _ & _ & [? ?]).
    + split_and!; try done.
      split; [by intros (? & ? & ?)|]. by intros (_ & _ & ? & _).
    + split_and!; try done.
      split; [by intros (? & ? & ?)|]. by intros (_ & _ & ? & _).
  - assert (split_design design = Raise AssertionError) as ->.
    { unfold split_design. repeat case_decide; try done. exfalso. tauto. }
    simpl. split_and!; try done; try (intros; exfalso; tauto).
    split; [by intros (? & ? & ?)|]. intros (? & ? & _). tauto.
Qed.

(** The statement of X12 at [Fixture.design]. *)
Lemma main_starts_iff_witness :
  let started :=
    main "art" Fixture.design "https://example.com/" 2 false Sample.uploaded
      ∅ in
  ((∃ j s, started = Ok (j, s)) ↔
   mode Fixture.design = "RGBA" ∧ size Fixture.design = QRCODE_SIZE ∧
   post_status Sample.uploaded = 302 ∧ is_Some (location_i Sample.uploaded)) ∧
  (∀ j s, started = Ok (j, s) →
     workers s = replicate 2 Sampling ∧
     shared s = mkWorld false ∅ [] ∧
     name j = "art" ∧ href j = "https://example.com/" ∧
     stop_if_found j = false ∧
     location_i Sample.uploaded = Some (uploaded_image_id j) ∧
     ∃ desired, split_design Fixture.design = Ok (desired, necessary j)) ∧
  (mode Fixture.design = "RGBA" → size Fixture.design = QRCODE_SIZE →
   post_status Sample.uploaded ≠ 302 → started = Raise AssertionError) ∧
  (mode Fixture.design = "RGBA" → size Fixture.design = QRCODE_SIZE →
   post_status Sample.uploaded = 302 → location_i Sample.uploaded = None →
   started = Raise KeyError).
Proof.
  exact (main_starts_iff "art" Fixture.design "https://example.com/" 2 false
           Sample.uploaded ∅ fixture_design_shape).
Defined.

(** X13.  When the entry point starts a session, the session name is not
    empty and holds no slash, and neither does any file name built from it:
    every result is saved in the working directory, wherever the design
    is. *)
Theorem entry_name_is_local (path : string) (design : Image) (href : string)
  (concurrency : nat) (stop_if_found : bool) (r : post_reply)
  (cwd : gmap string Image) (j : job) (s : session) :
  entry path design href concurrency stop_if_found r cwd = Ok (j, s) →
  name j ≠ "" ∧ ("/"%char ∉ chars (name j)) ∧
  (∀ score p, "/"%char ∉ chars (filename (name j) score p)).
Proof.
  unfold entry.
  destruct (Py.splitext (Py.basename path)) as [stem png] eqn:Hsplit.
  case_decide as Hpng; [|done]. intros Hmain.
  assert (name j = stem) as ->.
  { unfold main in Hmain.
    destruct (split_design design) as [[d n]|]; [|done]. simpl in Hmain.
    destruct (upload_image r); [|done]. simpl in Hmain.
    by injection Hmain as <- _. }
  assert (stem = (Py.splitext (Py.basename path)).1) as Hstem
    by (by rewrite Hsplit).
  assert (png = (Py.splitext (Py.basename path)).2) as Hext
    by (by rewrite Hsplit).
  assert ("/"%char ∉ chars stem) as Hslash.
  { intros Hin. rewrite Hstem in Hin. apply splitext_stem_subset in Hin.
    by apply basename_no_slash in Hin. }
  split_and!.
  - rewrite Hstem. apply splitext_ext_stem. rewrite <- Hext.
    intros ->. by vm_compute in Hpng.
  - done.
  - intros score p. unfold filename. rewrite !chars_app.
    rewrite !not_elem_of_app.
    split_and!; try done; try (apply not_digit_sep; decide_it);
      decide_it.
Qed.

(** The statement of X13 at a design in a directory, named in upper
    case. *)
Lemma entry_name_is_local_witness :
  name Sample.patient_job ≠ "" ∧
  ("/"%char ∉ chars (name Sample.patient_job)) ∧
  (∀ score p,
     "/"%char ∉ chars (filename (name Sample.patient_job) score p)).
Proof.
  apply (entry_name_is_local "designs/art.PNG" Fixture.design
           "https://example.com/" 2 false Sample.uploaded ∅
           Sample.patient_job Sample.started).
  by vm_compute.
Defined.

(** ** More of the session *)

Section more_session.
Context `{External}.

Lemma run_snoc j es e s : run j (es ++ [e]) s = session_step j (run j es s) e.
Proof. by rewrite run_app. Qed.

Lemma worker_step_stop_mono j i ph w :
  stop_event w = true → stop_event (worker_step j i ph w).2 = true.
Proof.
  intros Hs. destruct ph; unfold worker_step; cbv zeta; try done.
  - by rewrite Hs.
  - by destruct (render (reply i)).
  - destruct (search_ok _) as [[]|]; done.
  - destruct (eval_qrcode canvas) as [[]|]; done.
  - by destruct (stop_if_found j).
Qed.

Lemma session_step_stop_mono j s e :
  stop_event (shared s) = true →
  stop_event (shared (session_step j s e)) = true.
Proof.
  intros Hs. destruct e as [k i|]; simpl; [|done].
  destruct (workers s !! k) as [ph|] eqn:Hph; [|done].
  pose proof (worker_step_stop_mono j i ph (shared s) Hs) as Hm.
  by destruct (worker_step j i ph (shared s)).
Qed.

(** X14.  The stop event is never cleared: once it is set, it stays set
    whatever the workers do. *)
Theorem stop_event_monotone (j : job) (es : list event) (s : session) :
  stop_event (shared s) = true → stop_event (shared (run j es s)) = true.
Proof.
  revert s. induction es as [|e es IH]; intros s Hs; [done|].
  rewrite run_cons. apply IH. by apply session_step_stop_mono.
Qed.

Lemma worker_step_ranks j i ph w :
  stop_event w = true →
  steps_left (worker_step j i ph w).1 ≤ steps_left ph - 1.
Proof.
  intros Hs. destruct ph; unfold worker_step; cbv zeta; simpl; try lia.
  - rewrite Hs. simpl. lia.
  - destruct (render (reply i)); simpl; lia.
  - destruct (search_ok _) as [[]|]; simpl; lia.
  - destruct (eval_qrcode canvas) as [[]|]; simpl; lia.
  - destruct (stop_if_found j); simpl; lia.
Qed.

Lemma own_steps_cons_other k e es :
  not_step_of k e → own_steps k (e :: es) = own_steps k es.
Proof. intros He. unfold own_steps. by rewrite filter_cons_False by tauto. Qed.

Lemma own_steps_cons_own k i es :
  own_steps k (Step k i :: es) = S (own_steps k es).
Proof.
  unfold own_steps. rewrite filter_cons_True; [done|]. simpl. tauto.
Qed.

Lemma stopped_worker_ranks j k es s ph :
  stop_event (shared s) = true →
  workers s !! k = Some ph →
  ∃ ph', workers (run j es s) !! k = Some ph' ∧
         steps_left ph' ≤ steps_left ph - own_steps k es.
Proof.
  revert s ph. induction es as [|e es IH]; intros s ph Hs Hph.
  - exists ph. split; [done|]. unfold own_steps. simpl. lia.
  - rewrite run_cons.
    destruct (decide (not_step_of k e)) as [Hother|Hown].
    + rewrite own_steps_cons_other by done.
      apply IH; [by apply session_step_stop_mono|].
      by rewrite session_step_other.
    + apply own_step in Hown as [i ->]. rewrite own_steps_cons_own.
      destruct (session_step_own j s k i ph Hph) as [Hk _].
      destruct (IH _ _ (session_step_stop_mono j s _ Hs) Hk)
        as (ph' & Hph' & Hle).
      exists ph'. split; [done|].
      pose proof (worker_step_ranks j i ph (shared s) Hs). lia.
Qed.

Lemma steps_left_0 ph : steps_left ph = 0 → ph = Exited ∨ ∃ e, ph = Raised e.
Proof. destruct ph; simpl; try lia; eauto. Qed.

(** X15.  Once the stop event is set, a worker is over, returned or
    raised, after at most seven of its own steps from the request, and after
    one step from the loop head: it finishes its attempt and starts no
    other. *)
Theorem stop_ends_worker (j : job) (k : nat) (es : list event) (s : session)
  (ph : phase) :
  stop_event (shared s) = true →
  workers s !! k = Some ph →
  steps_left ph ≤ own_steps k es →
  workers (run j es s) !! k = Some Exited ∨
  ∃ e, workers (run j es s) !! k = Some (Raised e).
Proof.
  intros Hs Hph Hn.
  destruct (stopped_worker_ranks j k es s ph Hs Hph) as (ph' & Hph' & Hle).
  destruct (steps_left_0 ph') as [->|[e ->]]; [lia|by left|right; by exists e].
Qed.


(** *** Storage *)

Lemma worker_step_storage j i ph w f :
  storage (worker_step j i ph w).2 !! f = storage w !! f ∨
  ∃ p canvas score, ph = Persisting p canvas score ∧
    f = filename (name j) score p ∧
    storage (worker_step j i ph w).2 !! f = Some canvas.
Proof.
  destruct ph; unfold worker_step; cbv zeta; try (by left).
  - left. by destruct (stop_event w).
  - left. by destruct (render (reply i)).
  - left. destruct (search_ok _) as [[]|]; done.
  - left. destruct (eval_qrcode canvas) as [[]|]; done.
  - cbn [snd storage].
    destruct (decide (f = filename (name j) score p)) as [->|Hne].
    + right. exists p, canvas, score. split_and!; [done..|].
      apply lookup_insert_eq.
    + left. by rewrite lookup_insert_ne.
  - left. by destruct (stop_if_found j).
Qed.

Lemma session_step_storage j s e f :
  storage (shared (session_step j s e)) !! f = storage (shared s) !! f ∨
  ∃ score p canvas, f = filename (name j) score p ∧
    storage (shared (session_step j s e)) !! f = Some canvas.
Proof.
  destruct e as [k i|]; simpl; [|by left].
  destruct (workers s !! k) as [ph|] eqn:Hph; [|by left].
  destruct (worker_step_storage j i ph (shared s) f)
    as [Heq|(p & c & sc & _ & -> & Hf)];
    destruct (worker_step j i ph (shared s)) as [ph' w']; simpl in *.
  - by left.
  - right. by exists sc, p, c.
Qed.

(** X16.  No file is ever removed from the directory, and every file that
    appears in it has a name built by [filename] from the session name, a
    score and a draw. *)
Theorem storage_only_grows (j : job) (es : list event) (s : session)
  (f : string) :
  (is_Some (storage (shared s) !! f) →
   is_Some (storage (shared (run j es s)) !! f)) ∧
  (is_Some (storage (shared (run j es s)) !! f) →
   is_Some (storage (shared s) !! f) ∨
   ∃ score p, f = filename (name j) score p).
Proof.
  revert s. induction es as [|e es IH]; intros s; [by split; auto|].
  rewrite run_cons. destruct (IH (session_step j s e)) as [IH1 IH2].
  destruct (session_step_storage j s e f) as [Heq|(sc & p & c & -> & Hf)].
  - rewrite Heq in IH1, IH2. by split.
  - split.
    + intros _. apply IH1. by rewrite Hf.
    + intros _. right. by exists sc, p.
Qed.

(** *** Who sets the stop event *)

Lemma worker_step_stop_unset j i ph w :
  stop_event (worker_step j i ph w).2 = stop_event w ∨
  (ph = Stopping ∧ stop_if_found j = true).
Proof.
  destruct ph; unfold worker_step; cbv zeta; try (by left).
  - left. by destruct (stop_event w) eqn:Hs.
  - left. by destruct (render (reply i)).
  - left. destruct (search_ok _) as [[]|]; done.
  - left. destruct (eval_qrcode canvas) as [[]|]; done.
  - destruct (stop_if_found j); [by right|by left].
Qed.

Lemma stop_unchanged_by_workers (j : job) (es : list event) (s : session) :
  stop_if_found j = false →
  Forall not_set_stop es →
  stop_event (shared (run j es s)) = stop_event (shared s).
Proof.
  intros Hsif. revert s. induction es as [|e es IH]; intros s Hes; [done|].
  apply Forall_cons in Hes as [He Hes]. rewrite run_cons, IH by done.
  destruct e as [k i|]; [|done]. simpl.
  destruct (workers s !! k) as [ph|] eqn:Hph; [|done].
  destruct (worker_step_stop_unset j i ph (shared s)) as [Heq|[_ Hcontra]];
    [|congruence].
  by destruct (worker_step j i ph (shared s)).
Qed.

(** X17.  Without stop-on-first-found no worker ever sets the stop event:
    as long as it is not set from outside, it keeps its value. *)
Theorem workers_never_stop (j : job) (es : list event) (s : session) :
  stop_if_found j = false →
  Forall not_set_stop es →
  stop_event (shared (run j es s)) = stop_event (shared s).
Proof. apply stop_unchanged_by_workers. Qed.

Lemma saved_during_snoc j es e s :
  saved_during j es s → saved_during j (es ++ [e]) s.
Proof.
  intros (es1 & k & i & es2 & p & c & sc & -> & Hph & Hf).
  exists es1, k, i, (es2 ++ [e]), p, c, sc. split_and!; [|done..].
  by rewrite <- app_assoc.
Qed.

Lemma quiet_step j i ph w :
  quiet ph →
  (worker_step j i ph w).1 ≠ Stopping ∧
  stop_event (worker_step j i ph w).2 = stop_event w.
Proof.
  destruct ph; unfold worker_step; cbv zeta; simpl; try done.
  - by destruct (stop_event w) eqn:Hs.
  - by destruct (render (reply i)).
  - destruct (search_ok _) as [[]|]; done.
  - destruct (eval_qrcode canvas) as [[]|]; done.
Qed.

Lemma stop_after_save_inv j es s :
  ¬ at_stopping s → stop_event (shared s) = false →
  Forall not_set_stop es →
  (stop_event (shared (run j es s)) = true ∨ at_stopping (run j es s)) →
  saved_during j es s.
Proof.
  intros Hno Hstop. induction es as [|e es IH] using rev_ind; intros Hes Hnow.
  - destruct Hnow as [Hnow|Hnow]; [simpl in Hnow; congruence|done].
  - apply Forall_app in Hes as [Hes He]. apply Forall_cons in He as [He _].
    rewrite run_snoc in Hnow.
    destruct e as [k i|]; [|destruct He].
    set (s0 := run j es s) in *.
    destruct (workers s0 !! k) as [ph|] eqn:Hph; cycle 1.
    { apply saved_during_snoc, IH; [done|].
      simpl in Hnow. by rewrite Hph in Hnow. }
    destruct (session_step_own j s0 k i ph Hph) as [Hk Hw].
    assert (quiet ph → saved_during j (es ++ [Step k i]) s) as Hquiet.
    { intros Hq. destruct (quiet_step j i ph (shared s0) Hq) as [Hq1 Hq2].
      apply saved_during_snoc, IH; [done|].
      destruct Hnow as [Hnow|Hnow].
      - left. by rewrite Hw, Hq2 in Hnow.
      - right. unfold at_stopping in *.
        apply list_elem_of_lookup in Hnow as [k' Hk'].
        destruct (decide (k' = k)) as [->|Hne].
        + rewrite Hk in Hk'. by injection Hk' as Hk'.
        + rewrite session_step_other in Hk' by (simpl; done).
          by eapply list_elem_of_lookup_2. }
    destruct ph; try (by apply Hquiet).
    + exists es, k, i, [], p, canvas, score. split_and!; [done..|].
      rewrite run_snoc. fold s0. rewrite Hw.
      unfold worker_step. cbn [snd storage]. apply lookup_insert_eq.
    + apply saved_during_snoc, IH; [done|]. right.
      by eapply list_elem_of_lookup_2.
Qed.

(** X18.  In a session started with every worker at the loop head and
    the stop event unset, when the stop event is found set without having
    been set from outside, then stop-on-first-found is on and a worker has
    saved a result before. *)
Theorem stop_set_after_save (j : job) (es : list event) (s : session) :
  Forall (λ ph, ph = Sampling) (workers s) →
  stop_event (shared s) = false →
  Forall not_set_stop es →
  stop_event (shared (run j es s)) = true →
  stop_if_found j = true ∧ saved_during j es s.
Proof.
  intros Hstart Hstop Hes Hnow. split.
  - destruct (stop_if_found j) eqn:Hsif; [done|].
    rewrite (stop_unchanged_by_workers j es s Hsif Hes) in Hnow. congruence.
  - apply stop_after_save_inv; [|done|done|by left].
    intros Hin. unfold at_stopping in Hin.
    by apply (Forall_forall _ _) with (x := Stopping) in Hstart.
Qed.





End more_session.

(** The statement of X14 at [Sample.stopped] and a few events. *)
Lemma stop_event_monotone_witness :
  stop_event
    (shared (run (H := Fixture.stub) Fixture.job
               [Step 0 Sample.good; Step 1 Sample.good; Step 0 Sample.good]
               Sample.stopped)) = true.
Proof.
  apply (stop_event_monotone (H := Fixture.stub) Fixture.job
           [Step 0 Sample.good; Step 1 Sample.good; Step 0 Sample.good]
           Sample.stopped).
  reflexivity.
Defined.

(** The statement of X15 at [Sample.stopped]: the second worker, at the
    loop head, is over after its first step. *)
Lemma stop_ends_worker_witness :
  workers (run (H := Fixture.stub) Fixture.job
             [Step 0 Sample.good; Step 1 Sample.good] Sample.stopped) !! 1
  = Some Exited ∨
  ∃ e, workers (run (H := Fixture.stub) Fixture.job
                  [Step 0 Sample.good; Step 1 Sample.good] Sample.stopped)
         !! 1 = Some (Raised e).
Proof.
  apply (stop_ends_worker (H := Fixture.stub) Fixture.job 1
           [Step 0 Sample.good; Step 1 Sample.good] Sample.stopped Sampling).
  - reflexivity.
  - reflexivity.
  - vm_compute. lia.
Defined.

(** The statement of X17 at [Sample.patient_job] and a whole attempt of the
    first worker. *)
Lemma workers_never_stop_witness :
  stop_event
    (shared (run (H := Fixture.stub) Sample.patient_job
               (replicate 7 (Step 0 Sample.good)) Sample.started))
  = stop_event (shared Sample.started).
Proof.
  apply (workers_never_stop (H := Fixture.stub) Sample.patient_job
           (replicate 7 (Step 0 Sample.good)) Sample.started).
  - reflexivity.
  - repeat constructor.
Defined.

Lemma sample_started_at_loop_head :
  Forall (λ ph, ph = Sampling) (workers Sample.started).
Proof. repeat constructor. Qed.

(** With the stand-in capabilities, seven steps of the first worker on a
    well-formed reply take it through a whole attempt, and it sets the stop
    event. *)
Lemma sample_attempt_stops :
  stop_event
    (shared (run (H := Fixture.stub) Fixture.job
               (replicate 7 (Step 0 Sample.good)) Sample.started)) = true.
Proof. reflexivity. Qed.

(** The statement of X18 at that attempt. *)
Lemma stop_set_after_save_witness :
  stop_if_found Fixture.job = true ∧
  saved_during (H := Fixture.stub) Fixture.job
    (replicate 7 (Step 0 Sample.good)) Sample.started.
Proof.
  apply (stop_set_after_save (H := Fixture.stub) Fixture.job
           (replicate 7 (Step 0 Sample.good)) Sample.started).
  - exact sample_started_at_loop_head.
  - reflexivity.
  - repeat constructor.
  - exact sample_attempt_stops.
Defined.

